(** * The statistics bar of the viewer: axis scaling and tick selection

    A shallow embedding of [indra/llui/llstatbar.cpp]: the numeric helpers
    [calc_tick_value], [calc_auto_scale_range] and [calc_num_rapid_changes],
    and the part of the [LLStatBar] widget that stores and updates the bar
    range and the display state; and of the collision record of
    [mean_collision_data.h].  The definitions come first, the properties
    after them.

    [F32] values are IEEE 754 binary32 numbers, [F64] values binary64 numbers,
    both given by the Standard Library's [SpecFloat] (round to nearest, ties to
    even).  [S32] values are integers of [Z] kept in the 32-bit signed range. *)

From Stdlib Require Import ZArith QArith Bool Ascii String DecimalString List Lia Lqa.
From Stdlib Require Import Floats.SpecFloat.
Import ListNotations.

Local Open Scope Z_scope.

(** ** Machine numbers *)

Definition F32 := spec_float.
Definition F64 := spec_float.
Definition S32 := Z.

Definition S32_MAX : S32 := 2147483647.
Definition S32_MIN : S32 := -2147483648.

(** Two's-complement wrap-around of a 32-bit signed result. *)
Definition S32_wrap (z : Z) : S32 := (z + 2147483648) mod 4294967296 - 2147483648.

Module F32ops.
Definition prec : Z := 24.
Definition emax : Z := 128.

Definition add : F32 -> F32 -> F32 := SFadd prec emax.
Definition sub : F32 -> F32 -> F32 := SFsub prec emax.
Definition mul : F32 -> F32 -> F32 := SFmul prec emax.
Definition div : F32 -> F32 -> F32 := SFdiv prec emax.
Definition neg : F32 -> F32 := SFopp.

(** The comparisons of C++ on floats: each is false when an operand is NaN. *)
Definition ltb (x y : F32) : bool := SFltb x y.
Definition leb (x y : F32) : bool := SFleb x y.
Definition gtb (x y : F32) : bool := SFltb y x.
Definition geb (x y : F32) : bool := SFleb y x.
Definition eqb (x y : F32) : bool := SFeqb x y.

Definition is_nan (x : F32) : bool :=
  match x with S754_nan => true | _ => false end.

Definition is_finite (x : F32) : bool :=
  match x with S754_zero _ | S754_finite _ _ _ => true | _ => false end.

(** [(F32) z] for an integer [z]: the nearest binary32 number. *)
Definition of_Z (z : Z) : F32 := binary_normalize prec emax z 0 false.

Definition zero : F32 := S754_zero false.
End F32ops.

Module F64ops.
Definition prec : Z := 53.
Definition emax : Z := 1024.

Definition add : F64 -> F64 -> F64 := SFadd prec emax.
Definition mul : F64 -> F64 -> F64 := SFmul prec emax.

(** [(double) x] for a float [x]: exact, the mantissa is only realigned. *)
Definition of_F32 (x : F32) : F64 :=
  match x with
  | S754_finite s m e => binary_round prec emax s m e
  | _ => x
  end.

(** [(F32) x] for a double [x]: rounded to the nearest binary32 number. *)
Definition to_F32 (x : F64) : F32 :=
  match x with
  | S754_finite s m e => binary_round F32ops.prec F32ops.emax s m e
  | _ => x
  end.
End F64ops.

Declare Scope f32_scope.
Delimit Scope f32_scope with f32.
Infix "+" := F32ops.add : f32_scope.
Infix "-" := F32ops.sub : f32_scope.
Infix "*" := F32ops.mul : f32_scope.
Infix "/" := F32ops.div : f32_scope.
Infix "<?" := F32ops.ltb : f32_scope.
Infix "<=?" := F32ops.leb : f32_scope.
Infix ">?" := F32ops.gtb : f32_scope.
Infix ">=?" := F32ops.geb : f32_scope.

(** [(S32) x] for a float [x]: truncation toward zero.  The conversion of a
    NaN or of a value outside the 32-bit range is undefined in C++; it is
    given here the value [S32_MIN] that the x86 conversion instructions
    produce. *)
Definition F32_to_S32 (x : F32) : S32 :=
  match x with
  | S754_zero _ => 0
  | S754_finite s m e =>
      let magnitude :=
        match e with
        | Zneg p => Z.shiftr (Zpos m) (Zpos p)
        | _ => Z.shiftl (Zpos m) e
        end in
      let z := if s then - magnitude else magnitude in
      if (S32_MIN <=? z) && (z <=? S32_MAX) then z else S32_MIN
  | _ => S32_MIN
  end.

(** Float literals of the source. *)
Definition f32_0 : F32 := F32ops.zero.
Definition f32_1 : F32 := F32ops.of_Z 1.
Definition f32_2 : F32 := F32ops.of_Z 2.
Definition f32_3 : F32 := F32ops.of_Z 3.
Definition f32_5 : F32 := F32ops.of_Z 5.
Definition f32_10 : F32 := F32ops.of_Z 10.
Definition f32_100 : F32 := F32ops.of_Z 100.
Definition f32_1_5 : F32 := (F32ops.of_Z 3 / F32ops.of_Z 2)%f32.
Definition f32_0_5 : F32 := (F32ops.of_Z 1 / F32ops.of_Z 2)%f32.
Definition f32_0_25 : F32 := (F32ops.of_Z 1 / F32ops.of_Z 4)%f32.

(** ** Helpers of the viewer's math library *)

(** Modelled from the spec: [llmin] and [llmax] (lldefs.h) are not part of the
    excerpt; they are the minimum and the maximum of their arguments, written
    here with the one comparison a C++ template makes, and the three-argument
    forms fold the two-argument ones from the left. *)
Definition llmin (d1 d2 : F32) : F32 := if (d1 <? d2)%f32 then d1 else d2.
Definition llmax (d1 d2 : F32) : F32 := if (d1 >? d2)%f32 then d1 else d2.
Definition llmin3 (d1 d2 d3 : F32) : F32 := llmin (llmin d1 d2) d3.
Definition llmax3 (d1 d2 d3 : F32) : F32 := llmax (llmax d1 d2) d3.
Definition llmaxS (d1 d2 : S32) : S32 := if d1 >? d2 then d1 else d2.

(** Modelled from the spec: [llabs] (lldefs.h) is not part of the excerpt; it
    is the absolute value, [a >= 0 ? a : -a]. *)
Definition llabs (a : F32) : F32 := if (a >=? f32_0)%f32 then a else F32ops.neg a.

Definition llisnan (x : F32) : bool := F32ops.is_nan x.

(** ** The numeric helpers of llstatbar.cpp

    Three functions that the helpers call are outside the excerpt and are
    taken as parameters, so that every result below holds whatever they
    compute:
    - [is_approx_equal x y], the approximate equality of llmath.h;
    - [llceil_log10 x], which stands for [llceil(logf(x) * OO_LN10)], the
      number of whole decimal digits of [x] as the C library's [logf]
      measures it;
    - [pow10 n], which stands for [pow(10.0, n)], a double. *)
Section NumericHelpers.

Variable is_approx_equal : F32 -> F32 -> bool.
Variable llceil_log10 : F32 -> S32.
Variable pow10 : S32 -> F64.

(** *** calc_auto_scale_range *)

Definition RANGES : list F32 := [f32_0; f32_1; f32_1_5; f32_2; f32_3; f32_5; f32_10].
Definition TICKS : list F32 := [f32_0; f32_0_25; f32_0_5; f32_1; f32_1; f32_1; f32_2].

(** The four variables the two scan loops assign. *)
Record scan_state := mk_scan {
  out_min : F32;
  out_max : F32;
  cur_tick_min : F32;
  cur_tick_max : F32
}.

(** One iteration of the first loop (ascending [range_idx]). *)
Definition ascending_step (min max starting_min starting_max : F32)
    (st : scan_state) (range_idx : nat) : scan_state :=
  let cur_max := (starting_max * nth range_idx RANGES f32_0)%f32 in
  let cur_min := (starting_min * nth range_idx RANGES f32_0)%f32 in
  let st1 :=
    if (min >? f32_0)%f32 && (cur_min <=? min)%f32
    then mk_scan cur_min (out_max st) (nth range_idx TICKS f32_0) (cur_tick_max st)
    else st in
  if (max <? f32_0)%f32 && (cur_max >=? max)%f32
  then mk_scan (out_min st1) cur_max (cur_tick_min st1) (nth range_idx TICKS f32_0)
  else st1.

(** One iteration of the second loop (descending [range_idx]). *)
Definition descending_step (min max starting_min starting_max : F32)
    (st : scan_state) (range_idx : nat) : scan_state :=
  let cur_max := (starting_max * nth range_idx RANGES f32_0)%f32 in
  let cur_min := (starting_min * nth range_idx RANGES f32_0)%f32 in
  let st1 :=
    if (min <? f32_0)%f32 && (cur_min <=? min)%f32
    then mk_scan cur_min (out_max st) (nth range_idx TICKS f32_0) (cur_tick_max st)
    else st in
  if (max >? f32_0)%f32 && (cur_max >=? max)%f32
  then mk_scan (out_min st1) cur_max (cur_tick_min st1) (nth range_idx TICKS f32_0)
  else st1.

Definition ascending_indices : list nat := seq 0 (length RANGES).
Definition descending_indices : list nat := rev (seq 0 (length RANGES)).

(** The values the function computes before its loops. *)
Record scale_setup := mk_setup {
  clamped_min : F32;
  clamped_max : F32;
  power_of_10 : F32;
  starting_min : F32;
  starting_max : F32
}.

Definition auto_scale_setup (min max : F32) : scale_setup :=
  let min := llmin3 f32_0 min max in
  let max := llmax3 f32_0 min max in
  let num_digits_max :=
    if is_approx_equal (llabs max) f32_0 then S32_MIN + 1 else llceil_log10 (llabs max) in
  let num_digits_min :=
    if is_approx_equal (llabs min) f32_0 then S32_MIN + 1 else llceil_log10 (llabs min) in
  let num_digits := llmaxS num_digits_max num_digits_min in
  let power_of_10 := F64ops.to_F32 (pow10 (S32_wrap (num_digits - 1))) in
  let starting_max := (power_of_10 * F32ops.of_Z (if (max <? f32_0)%f32 then -1 else 1))%f32 in
  let starting_min := (power_of_10 * F32ops.of_Z (if (min <? f32_0)%f32 then -1 else 1))%f32 in
  mk_setup min max power_of_10 starting_min starting_max.

Definition first_loop (su : scale_setup) (st : scan_state) : scan_state :=
  fold_left
    (ascending_step (clamped_min su) (clamped_max su) (starting_min su) (starting_max su))
    ascending_indices st.

Definition second_loop (su : scale_setup) (st : scan_state) : scan_state :=
  fold_left
    (descending_step (clamped_min su) (clamped_max su) (starting_min su) (starting_max su))
    descending_indices st.

Definition scan_result (su : scale_setup) (st : scan_state) : F32 * F32 * F32 :=
  (out_min st, out_max st,
   (power_of_10 su * llmax (cur_tick_min st) (cur_tick_max st))%f32).

(** [calc_auto_scale_range(min, max, tick)]: the three references it writes,
    returned as [(min, max, tick)]. *)
Definition calc_auto_scale_range (min max : F32) : F32 * F32 * F32 :=
  let su := auto_scale_setup min max in
  let st0 := mk_scan (clamped_min su) (clamped_max su) f32_0 f32_0 in
  scan_result su (second_loop su (first_loop su st0)).

(** *** calc_tick_value *)

Definition DIVISORS : list S32 := [6; 8; 10; 4; 5].

(** [min + (possible_tick_value * pow(10.0, digit_count))]: the product and
    the sum are computed in double precision, and the result is stored in the
    float [test_tick_value]. *)
Definition test_tick_value (min possible_tick_value : F32) (digit_count : S32) : F32 :=
  F64ops.to_F32
    (F64ops.add (F64ops.of_F32 min)
       (F64ops.mul (F64ops.of_F32 possible_tick_value) (pow10 digit_count))).

(** [is_approx_equal((F32)(S32)test_tick_value, test_tick_value)] *)
Definition rounds_cleanly (test_tick_value : F32) : bool :=
  is_approx_equal (F32ops.of_Z (F32_to_S32 test_tick_value)) test_tick_value.

(** The inner loop [for (digit_count = ...; digit_count < 6; digit_count++)]
    with [steps] iterations left: the digit count at which it breaks, if it
    does. *)
Fixpoint digit_scan (steps : nat) (min possible_tick_value : F32) (digit_count : S32)
    : option S32 :=
  match steps with
  | O => None
  | S steps' =>
      if rounds_cleanly (test_tick_value min possible_tick_value digit_count)
      then Some digit_count
      else digit_scan steps' min possible_tick_value (digit_count + 1)
  end.

(** The body of the outer loop up to the inner loop's exit: the first digit
    count, from [-(num_whole_digits - 1)] to 5, at which the candidate tick of
    [divisor] rounds cleanly.  The 32-bit arithmetic wraps around. *)
Definition first_clean_digit_count (min range : F32) (divisor : S32) : option S32 :=
  let possible_tick_value := (range / F32ops.of_Z divisor)%f32 in
  let num_whole_digits := llceil_log10 (min + possible_tick_value)%f32 in
  let start := S32_wrap (- S32_wrap (num_whole_digits - 1)) in
  digit_scan (Z.to_nat (6 - start)) min possible_tick_value start.

Record best_choice := mk_best {
  best_decimal_digit_count : S32;
  best_divisor : S32
}.

Definition divisor_step (min range : F32) (best : best_choice) (divisor : S32)
    : best_choice :=
  match first_clean_digit_count min range divisor with
  | Some digit_count =>
      if digit_count <? best_decimal_digit_count best
      then mk_best digit_count divisor
      else best
  | None => best
  end.

Definition choose_divisor (min range : F32) : best_choice :=
  fold_left (divisor_step min range) DIVISORS (mk_best S32_MAX 10).

Definition calc_tick_value (min max : F32) : F32 :=
  let range := (max - min)%f32 in
  let best := choose_divisor min range in
  if is_approx_equal range f32_0 then f32_0
  else (range / F32ops.of_Z (best_divisor best))%f32.

(** The scan of a list of divisors from a current best choice: either nothing
    beat the current best, or the result is the first divisor of the list that
    reaches the smallest digit count. *)
Definition scan_outcome (min range : F32) (l : list S32) (b0 b : best_choice) : Prop :=
  (b = b0 /\
   forall d k, In d l -> first_clean_digit_count min range d = Some k ->
               best_decimal_digit_count b0 <= k)
  \/
  (exists l1 l2,
     l = l1 ++ best_divisor b :: l2 /\
     first_clean_digit_count min range (best_divisor b) = Some (best_decimal_digit_count b) /\
     best_decimal_digit_count b < best_decimal_digit_count b0 /\
     (forall d k, In d l1 -> first_clean_digit_count min range d = Some k ->
                  best_decimal_digit_count b < k) /\
     (forall d k, In d l2 -> first_clean_digit_count min range d = Some k ->
                  best_decimal_digit_count b <= k)).

(** *** The widget: its parameter block and its fields *)

Inductive EOrientation := HORIZONTAL | VERTICAL.

Definition orientation_eqb (a b : EOrientation) : bool :=
  match a, b with
  | HORIZONTAL, HORIZONTAL | VERTICAL, VERTICAL => true
  | _, _ => false
  end.

(** An [Optional<T>] entry of a parameter block: the value it converts to
    (the declared default unless one was given) and whether one was given. *)
Record Optional (T : Type) := mk_optional {
  getValue : T;
  isProvided : bool
}.
#[global] Arguments mk_optional {T} _ _.
#[global] Arguments getValue {T} _.
#[global] Arguments isProvided {T} _.

Record Params := mk_params {
  label : string;
  unit_label : string;
  bar_min : Optional F32;
  bar_max : Optional F32;
  tick_spacing : Optional F32;
  decimal_digits : Optional S32;
  show_bar : Optional bool;
  show_history : Optional bool;
  scale_range : Optional bool;
  num_frames : Optional S32;
  num_frames_short : Optional S32;
  max_height : Optional S32;
  stat : string;
  orientation : Optional EOrientation
}.

(** [LLStatBar::Params::Params()]: the declared defaults, nothing provided. *)
Definition default_Params : Params :=
  let unset {T} (v : T) := mk_optional v false in
  mk_params ""%string ""%string (unset f32_0) (unset f32_0) (unset f32_0)
    (unset 3) (unset false) (unset false) (unset true)
    (unset 200) (unset 20) (unset 100) ""%string (unset VERTICAL).

(** The fields of [LLStatBar] that the constructor's initialiser list sets.
    The three trace handles that [setStat] looks up by name are outside the
    model. *)
Record LLStatBar := mk_statbar {
  mLabel : string;
  mUnitLabel : string;
  mMinBar : F32;
  mMaxBar : F32;
  mCurMaxBar : F32;
  mCurMinBar : F32;
  mDecimalDigits : S32;
  mNumHistoryFrames : S32;
  mNumShortHistoryFrames : S32;
  mMaxHeight : S32;
  mDisplayBar : bool;
  mDisplayHistory : bool;
  mOrientation : EOrientation;
  mAutoScaleMax : bool;
  mAutoScaleMin : bool;
  mTickValue : F32;
  mLastDisplayValue : F32
}.

(** Assignments to [mMinBar], [mMaxBar] and [mTickValue]. *)
Definition set_mMinBar (w : LLStatBar) (v : F32) : LLStatBar :=
  mk_statbar (mLabel w) (mUnitLabel w) v (mMaxBar w) (mCurMaxBar w) (mCurMinBar w)
    (mDecimalDigits w) (mNumHistoryFrames w) (mNumShortHistoryFrames w) (mMaxHeight w)
    (mDisplayBar w) (mDisplayHistory w) (mOrientation w) (mAutoScaleMax w)
    (mAutoScaleMin w) (mTickValue w) (mLastDisplayValue w).

Definition set_mMaxBar (w : LLStatBar) (v : F32) : LLStatBar :=
  mk_statbar (mLabel w) (mUnitLabel w) (mMinBar w) v (mCurMaxBar w) (mCurMinBar w)
    (mDecimalDigits w) (mNumHistoryFrames w) (mNumShortHistoryFrames w) (mMaxHeight w)
    (mDisplayBar w) (mDisplayHistory w) (mOrientation w) (mAutoScaleMax w)
    (mAutoScaleMin w) (mTickValue w) (mLastDisplayValue w).

Definition set_mTickValue (w : LLStatBar) (v : F32) : LLStatBar :=
  mk_statbar (mLabel w) (mUnitLabel w) (mMinBar w) (mMaxBar w) (mCurMaxBar w) (mCurMinBar w)
    (mDecimalDigits w) (mNumHistoryFrames w) (mNumShortHistoryFrames w) (mMaxHeight w)
    (mDisplayBar w) (mDisplayHistory w) (mOrientation w) (mAutoScaleMax w)
    (mAutoScaleMin w) v (mLastDisplayValue w).

(** Assignments to [mDisplayBar] and [mDisplayHistory]. *)
Definition set_display (w : LLStatBar) (bar history : bool) : LLStatBar :=
  mk_statbar (mLabel w) (mUnitLabel w) (mMinBar w) (mMaxBar w) (mCurMaxBar w) (mCurMinBar w)
    (mDecimalDigits w) (mNumHistoryFrames w) (mNumShortHistoryFrames w) (mMaxHeight w)
    bar history (mOrientation w) (mAutoScaleMax w)
    (mAutoScaleMin w) (mTickValue w) (mLastDisplayValue w).

(** [LLStatBar::LLStatBar(const Params& p)] *)
Definition new_LLStatBar (p : Params) : LLStatBar :=
  let w :=
    mk_statbar (label p) (unit_label p)
      (llmin (getValue (bar_min p)) (getValue (bar_max p)))
      (llmax (getValue (bar_max p)) (getValue (bar_min p)))
      (getValue (bar_max p))
      (F32ops.of_Z 0)
      (getValue (decimal_digits p))
      (getValue (num_frames p))
      (getValue (num_frames_short p))
      (getValue (max_height p))
      (getValue (show_bar p))
      (getValue (show_history p))
      (getValue (orientation p))
      (negb (isProvided (bar_max p)))
      (negb (isProvided (bar_min p)))
      (getValue (tick_spacing p))
      f32_0 in
  if negb (isProvided (tick_spacing p)) && isProvided (bar_min p) && isProvided (bar_max p)
  then set_mTickValue w (calc_tick_value (mMinBar w) (mMaxBar w))
  else w.

(** [LLStatBar::setRange] *)
Definition setRange (w : LLStatBar) (bar_min bar_max : F32) : LLStatBar :=
  let w1 := set_mMinBar w (llmin bar_min bar_max) in
  let w2 := set_mMaxBar w1 (llmax bar_min bar_max) in
  set_mTickValue w2 (calc_tick_value (mMinBar w2) (mMaxBar w2)).

(** [LLStatBar::drawTicks], the fields it leaves: the auto-scale update of its
    first statement.  The tick loop that follows draws and assigns no field;
    [value_scale] is read by that loop only. *)
Definition drawTicks (w : LLStatBar) (min max value_scale : F32) : LLStatBar :=
  if (mAutoScaleMax w && (max >=? mCurMaxBar w)%f32)
     || (mAutoScaleMin w && (min <=? mCurMinBar w)%f32)
  then
    let range_min := if mAutoScaleMin w then llmin (mMinBar w) min else mMinBar w in
    let range_max := if mAutoScaleMax w then llmax (mMaxBar w) max else mMaxBar w in
    let '(range_min, range_max, tick_value) := calc_auto_scale_range range_min range_max in
    let w1 := if mAutoScaleMin w then set_mMinBar w range_min else w in
    let w2 := if mAutoScaleMax w then set_mMaxBar w1 range_max else w1 in
    if mAutoScaleMin w && mAutoScaleMax w
    then set_mTickValue w2 tick_value
    else set_mTickValue w2 (calc_tick_value (mMinBar w2) (mMaxBar w2))
  else w.

(** [LLStatBar::handleMouseDown], the fields it leaves; [handled] is what
    [LLView::handleMouseDown] returned. *)
Definition handleMouseDown (w : LLStatBar) (handled : bool) : LLStatBar :=
  if negb handled
  then
    if mDisplayBar w
    then
      if mDisplayHistory w || orientation_eqb (mOrientation w) HORIZONTAL
      then set_display w false false
      else set_display w (mDisplayBar w) true
    else
      set_display w true
        (if orientation_eqb (mOrientation w) HORIZONTAL then true else mDisplayHistory w)
  else w.

Record LLRect := mk_rect {
  mLeft : S32;
  mTop : S32;
  mRight : S32;
  mBottom : S32
}.

(** [LLStatBar::getRequiredRect]: a rectangle whose other sides are the zeros
    of [LLRect]'s default constructor. *)
Definition getRequiredRect (w : LLStatBar) : LLRect :=
  mk_rect 0
    (if mDisplayBar w
     then if mDisplayHistory w then mMaxHeight w else 40
     else 14)
    0 0.

(** *** drawLabelAndValue *)

(** [llformat("%10.*f %s", decimal_digits, value, label)] is outside the
    excerpt and is a parameter. *)
Variable llformat : S32 -> F32 -> string -> string.

(** The [value_str] that [LLStatBar::drawLabelAndValue] renders. *)
Definition drawLabelAndValue (w : LLStatBar) (value : F32) (label : string) : string :=
  let decimal_digits :=
    if is_approx_equal (F32ops.of_Z (F32_to_S32 value)) value then 0 else mDecimalDigits w in
  if negb (llisnan value)
  then llformat decimal_digits value label
  else "n/a"%string.

(** *** Sequences of events

    What reaches a widget between two calls of [setRange]: frames, each with
    one call of [drawTicks], and mouse clicks. *)
Inductive frame_event :=
| Draw (min max value_scale : F32)
| Click (handled : bool).

Definition apply_event (w : LLStatBar) (ev : frame_event) : LLStatBar :=
  match ev with
  | Draw min max value_scale => drawTicks w min max value_scale
  | Click handled => handleMouseDown w handled
  end.

Definition run_events (w : LLStatBar) (evs : list frame_event) : LLStatBar :=
  fold_left apply_event evs w.

End NumericHelpers.

(** The three results of [calc_auto_scale_range]. *)
Definition range_min (r : F32 * F32 * F32) : F32 := fst (fst r).
Definition range_max (r : F32 * F32 * F32) : F32 := snd (fst r).
Definition range_tick (r : F32 * F32 * F32) : F32 := snd r.

(** ** Predicates on binary32 numbers *)

Definition F32_le (x y : F32) : Prop := F32ops.leb x y = true.
Definition not_nan (x : F32) : Prop := F32ops.is_nan x = false.

Definition F32_valid (x : F32) : Prop :=
  valid_binary F32ops.prec F32ops.emax x = true.
Definition F32_finite (x : F32) : Prop := F32ops.is_finite x = true.

(** Zero of either sign, a positive finite number or plus infinity. *)
Definition nonneg_float (x : spec_float) : Prop :=
  match x with
  | S754_nan => False
  | S754_zero _ => True
  | S754_infinity s | S754_finite s _ _ => s = false
  end.

Definition zero_float (x : spec_float) : Prop :=
  match x with S754_zero _ => True | _ => False end.

(** A positive finite number or plus infinity. *)
Definition positive_float (x : spec_float) : Prop :=
  match x with
  | S754_finite false _ _ | S754_infinity false => True
  | _ => False
  end.

Definition has_sign (s : bool) (x : spec_float) : Prop :=
  match x with
  | S754_nan => False
  | S754_zero s' | S754_infinity s' | S754_finite s' _ _ => s' = s
  end.

(** The bounds a scan keeps: the stored outputs enclose the clamped inputs. *)
Definition encloses (min max : F32) (st : scan_state) : Prop :=
  F32_le (out_min st) min /\ F32_le max (out_max st).

(** ** Reference implementations of the three parameters

    Executable stand-ins for the library functions, used to run the helpers on
    concrete inputs. *)

(** The bit pattern [(U32&) x] of a binary32 number (the quiet NaN for NaN). *)
Definition bits_of_F32 (x : F32) : Z :=
  let sign_bit (s : bool) := if s then 2147483648 else 0 in
  match x with
  | S754_zero s => sign_bit s
  | S754_infinity s => sign_bit s + 2139095040
  | S754_nan => 2143289344
  | S754_finite s m e =>
      if Zpos m <? 8388608
      then sign_bit s + Zpos m
      else sign_bit s + (e + 150) * 8388608 + (Zpos m - 8388608)
  end.

(** Modelled from the spec: [is_approx_equal] (llmath.h) is not part of the
    excerpt.  Its test: the bit patterns, subtracted as [U32] and read back as
    [S32], differ by less than [COMPARE_MANTISSA_UP_TO_BIT = 2] in absolute
    value. *)
Definition ref_is_approx_equal (x y : F32) : bool :=
  let diff := S32_wrap ((bits_of_F32 x - bits_of_F32 y) mod 4294967296) in
  S32_wrap (Z.abs diff) <? 2.

(** [x <= 10^n] for a positive number [x = m * 2^e]. *)
Definition le_pow10 (m : positive) (e n : Z) : bool :=
  match e, n with
  | Zneg pe, Zneg pn => Zpos m * 10 ^ Zpos pn <=? 2 ^ Zpos pe
  | Zneg pe, _ => Zpos m <=? 10 ^ n * 2 ^ Zpos pe
  | _, Zneg _ => false
  | _, _ => Zpos m * 2 ^ e <=? 10 ^ n
  end.

Fixpoint first_pow10_above (fuel : nat) (m : positive) (e n : Z) : Z :=
  match fuel with
  | O => n
  | S fuel' => if le_pow10 m e n then n else first_pow10_above fuel' m e (n + 1)
  end.

(** Modelled from the spec: [llceil] and [logf] are not part of the excerpt.
    The exact number of whole decimal digits, [ceil (log10 x)], of a positive
    finite [x]; [S32_MIN] elsewhere, where [logf] gives an infinity or a NaN. *)
Definition ref_llceil_log10 (x : F32) : S32 :=
  match x with
  | S754_finite false m e => first_pow10_above 90 m e (-46)
  | _ => S32_MIN
  end.

(** Modelled from the spec: [pow] is not part of the excerpt.  [10^n] rounded
    to the nearest double. *)
Definition ref_pow10 (n : S32) : F64 :=
  if n <? -400 then S754_zero false
  else if 400 <? n then S754_infinity false
  else match n with
       | Zneg p =>
           SFdiv F64ops.prec F64ops.emax
             (S754_finite false 1 0) (S754_finite false (Z.to_pos (10 ^ Zpos p)) 0)
       | _ => binary_normalize F64ops.prec F64ops.emax (10 ^ n) 0 false
       end.

(** Modelled from the spec: [llformat] (llformat.h) is not part of the
    excerpt; it formats like [printf].  This is the format ["%10.*f %s"]: the
    number in fixed notation with [decimal_digits] digits after the point
    (six when the precision is negative), rounded to nearest, ties to even,
    padded with spaces on the left to ten characters, then a space and the
    label. *)
Fixpoint spaces (n : nat) : string :=
  match n with
  | O => EmptyString
  | S n' => String " "%char (spaces n')
  end.

Definition pad_left (width : nat) (pad : nat -> string) (s : string) : string :=
  (pad (width - String.length s)%nat ++ s)%string.

Fixpoint zeros (n : nat) : string :=
  match n with
  | O => EmptyString
  | S n' => String "0"%char (zeros n')
  end.

(** [|x| * 10^p] for [|x| = m * 2^e], rounded to the nearest integer. *)
Definition scaled_magnitude (m : positive) (e : Z) (p : Z) : Z :=
  match e with
  | Zneg pe =>
      let num := Zpos m * 10 ^ p in
      let den := 2 ^ Zpos pe in
      let q := num / den in
      let r := num mod den in
      match 2 * r ?= den with
      | Lt => q
      | Gt => q + 1
      | Eq => if Z.even q then q else q + 1
      end
  | _ => Zpos m * 2 ^ e * 10 ^ p
  end.

Definition fixed_notation (n : Z) (p : Z) : string :=
  let digits :=
    pad_left (S (Z.to_nat p)) zeros (NilZero.string_of_uint (N.to_uint (Z.to_N n))) in
  let whole := (String.length digits - Z.to_nat p)%nat in
  if p =? 0 then digits
  else (substring 0 whole digits ++ "." ++ substring whole (Z.to_nat p) digits)%string.

Definition ref_llformat (decimal_digits : S32) (value : F32) (label : string) : string :=
  let p := if decimal_digits <? 0 then 6 else decimal_digits in
  let sign (s : bool) : string := if s then "-"%string else EmptyString in
  let number :=
    match value with
    | S754_nan => "nan"%string
    | S754_infinity s => (sign s ++ "inf")%string
    | S754_zero s => (sign s ++ fixed_notation 0 p)%string
    | S754_finite s m e => (sign s ++ fixed_notation (scaled_magnitude m e p) p)%string
    end in
  (pad_left 10 spaces number ++ " " ++ label)%string.

(** ** The smoothing of the displayed bounds *)

(** Modelled from the spec: [LLSmoothInterpolation::lerp] (llcriticaldamp.h) is
    not part of the excerpt.  The spec describes the update of the displayed
    bounds as exponential smoothing with a fixed blend factor: the value moves
    toward the target by that fraction of their distance.  The model is over
    exact rationals; the rounding of the binary32 arithmetic is left out. *)
Definition lerp (a b u : Q) : Q := (a + (b - a) * u)%Q.

(** The third argument of the two calls in [LLStatBar::draw], [0.05f]. *)
Definition BLEND_FACTOR : Q := (5 # 100)%Q.

Record display_bounds := mk_display_bounds {
  cur_max_bar : Q;
  cur_min_bar : Q;
  max_bar : Q;
  min_bar : Q
}.

(** The two assignments of [LLStatBar::draw] to [mCurMaxBar] and [mCurMinBar]. *)
Definition draw_smoothing (b : display_bounds) : display_bounds :=
  mk_display_bounds
    (lerp (cur_max_bar b) (max_bar b) BLEND_FACTOR)
    (lerp (cur_min_bar b) (min_bar b) BLEND_FACTOR)
    (max_bar b) (min_bar b).

(** [x] lies between [a] and [b], whichever is the larger. *)
Definition Qbetween (a b x : Q) : Prop :=
  ((a <= x)%Q /\ (x <= b)%Q) \/ ((b <= x)%Q /\ (x <= a)%Q).

(** How one side of the scan ends: no entry of the progression fits and the
    bound is the [fallback], with a zero tick; or the bound is the candidate
    of the first entry that fits, with that entry's tick. *)
Definition first_fit (fits : nat -> bool) (fallback : F32) (candidate : nat -> F32)
    (bound tick : F32) : Prop :=
  ((forall i, (i < length RANGES)%nat -> fits i = false) /\
   bound = fallback /\ tick = f32_0)
  \/
  (exists i,
     (i < length RANGES)%nat /\ fits i = true /\
     (forall j, (j < i)%nat -> fits j = false) /\
     bound = candidate i /\ tick = nth i TICKS f32_0).

(** An event whose observed bounds are numbers. *)
Definition event_is_numeric (ev : frame_event) : Prop :=
  match ev with
  | Draw min max _ => not_nan min /\ not_nan max
  | Click _ => True
  end.

(** ** The bar rectangle of draw *)

Definition llminS (d1 d2 : S32) : S32 := if d1 <? d2 then d1 else d2.

(** Modelled from the spec: [LLRect::getWidth] and [LLRect::getHeight]
    (llrect.h) are not part of the excerpt; they are the differences of the
    opposite sides, in 32-bit arithmetic. *)
Definition getWidth (r : LLRect) : S32 := S32_wrap (mRight r - mLeft r).
Definition getHeight (r : LLRect) : S32 := S32_wrap (mTop r - mBottom r).

(** The [bar_rect] that [LLStatBar::draw] computes from the widget's own
    rectangle [getRect()]. *)
Definition bar_rect (orientation : EOrientation) (rect : LLRect) : LLRect :=
  let top := llmaxS 5 (S32_wrap (getHeight rect - 15)) in
  match orientation with
  | HORIZONTAL =>
      mk_rect 0 top (S32_wrap (getWidth rect - 40)) (llminS (S32_wrap (top - 5)) 0)
  | VERTICAL =>
      mk_rect 0 top (getWidth rect) (llminS (S32_wrap (top - 5)) 20)
  end.

(** A rectangle whose sides are 32-bit integers. *)
Definition S32_range (z : Z) : Prop := S32_MIN <= z <= S32_MAX.
Definition LLRect_valid (r : LLRect) : Prop :=
  S32_range (mLeft r) /\ S32_range (mTop r) /\ S32_range (mRight r) /\ S32_range (mBottom r).

(** ** calc_num_rapid_changes *)

(** What the function reads of a [LLTrace::Recording] for the statistic it is
    given: the last value, the sum, and the duration converted to the
    [LLUnit<F32, LLUnits::Seconds>] it is added to. *)
Record Recording := mk_recording {
  getLastValue : F64;
  getSum : F64;
  getDuration : F32
}.

Record PeriodicRecording := mk_periodic {
  getNumRecordedPeriods : S32;
  getPrevRecording : S32 -> Recording
}.

(** The file-level constant, [0.2f], and the one the template shadows it
    with, [0.3f]. *)
Definition RAPID_CHANGE_THRESHOLD : F32 := (F32ops.of_Z 2 / F32ops.of_Z 10)%f32.
Definition RAPID_CHANGE_THRESHOLD_local : F32 := (F32ops.of_Z 3 / F32ops.of_Z 10)%f32.

(** The variables of the loop. *)
Record rapid_state := mk_rapid {
  last_value : F64;
  elapsed_time : F32;
  time_since_value_changed : F32;
  num_rapid_changes : S32
}.

(** The loop body up to the test of [elapsed_time]; [value_of] is
    [getLastValue] or [getSum]. *)
Definition rapid_body (value_of : Recording -> F64) (threshold : F32)
    (recording : Recording) (st : rapid_state) : rapid_state :=
  let cur_value := value_of recording in
  let st1 :=
    if negb (SFeqb (last_value st) cur_value)
    then
      mk_rapid (last_value st) (elapsed_time st) f32_0
        (if (time_since_value_changed st <? threshold)%f32
         then S32_wrap (num_rapid_changes st + 1)
         else num_rapid_changes st)
    else st in
  mk_rapid cur_value (elapsed_time st1 + getDuration recording)%f32
    (time_since_value_changed st1) (num_rapid_changes st1).

(** The loop [for (i = ...; i < getNumRecordedPeriods(); i++)] with [steps]
    iterations left. *)
Fixpoint rapid_loop (value_of : Recording -> F64) (threshold : F32)
    (periodic_recording : PeriodicRecording) (time_period : F32)
    (steps : nat) (i : S32) (st : rapid_state) : rapid_state :=
  match steps with
  | O => st
  | S steps' =>
      let st' := rapid_body value_of threshold (getPrevRecording periodic_recording i) st in
      if (elapsed_time st' >? time_period)%f32
      then st'
      else rapid_loop value_of threshold periodic_recording time_period steps' (i + 1) st'
  end.

(** The template, for event and sample statistics: it starts at [i = 2]. *)
Definition calc_num_rapid_changes (periodic_recording : PeriodicRecording)
    (time_period : F32) : S32 :=
  let st0 :=
    mk_rapid (getLastValue (getPrevRecording periodic_recording 1)) f32_0 f32_0 0 in
  num_rapid_changes
    (rapid_loop getLastValue RAPID_CHANGE_THRESHOLD_local periodic_recording time_period
       (Z.to_nat (getNumRecordedPeriods periodic_recording - 2)) 2 st0).

(** The overload for count statistics: it starts at [i = 1]. *)
Definition calc_num_rapid_changes_count (periodic_recording : PeriodicRecording)
    (time_period : F32) : S32 :=
  let st0 :=
    mk_rapid (getSum (getPrevRecording periodic_recording 1)) f32_0 f32_0 0 in
  num_rapid_changes
    (rapid_loop getSum RAPID_CHANGE_THRESHOLD periodic_recording time_period
       (Z.to_nat (getNumRecordedPeriods periodic_recording - 1)) 1 st0).

(** The file-level constants [RAPID_CHANGE_WINDOW = 1.f] and
    [MAX_RAPID_CHANGES_PER_SEC = 10]. *)
Definition RAPID_CHANGE_WINDOW : F32 := f32_1.
Definition MAX_RAPID_CHANGES_PER_SEC : S32 := 10.

(** The [display_value] that [LLStatBar::draw] selects for a sample
    statistic: the mean when the value changes rapidly, the current value
    otherwise. *)
Definition sample_display_value (frame_recording : PeriodicRecording)
    (current mean : F32) : F32 :=
  let num_rapid_changes := calc_num_rapid_changes frame_recording RAPID_CHANGE_WINDOW in
  if (F32ops.of_Z num_rapid_changes / RAPID_CHANGE_WINDOW
      >? F32ops.of_Z MAX_RAPID_CHANGES_PER_SEC)%f32
  then mean
  else current.

(** ** The collision record of mean_collision_data.h *)

Definition MEAN_COLLISION_TIMEOUT : F32 := F32ops.of_Z 5.
Definition MAX_MEAN_COLLISIONS : S32 := 5.

Inductive EMeanCollisionType :=
| MEAN_INVALID
| MEAN_BUMP
| MEAN_LLPUSHOBJECT
| MEAN_SELECTED_OBJECT_COLLIDE
| MEAN_SCRIPTED_OBJECT_COLLIDE
| MEAN_PHYSICAL_OBJECT_COLLIDE
| MEAN_EOF.

Definition NUL : ascii := Ascii.zero.

Definition is_NUL (c : ascii) : bool := Ascii.eqb c NUL.

(** The C string held in a [char] array: the characters before the first
    NUL. *)
Fixpoint c_str (chars : list ascii) : list ascii :=
  match chars with
  | [] => []
  | c :: chars' => if is_NUL c then [] else c :: c_str chars'
  end.

(** The [n] characters that [strncpy(dest, src, n)] writes: those of [src] up
    to its first NUL, then NULs. *)
Fixpoint strncpy (src : list ascii) (n : nat) {struct n} : list ascii :=
  match n with
  | O => []
  | S n' =>
      match src with
      | [] => repeat NUL (S n')
      | c :: src' => if is_NUL c then repeat NUL (S n') else c :: strncpy src' n'
      end
  end.

Section MeanCollisionData.

(** [LLUUID] and [time_t], the buffer sizes of lldbstrings.h and what the
    stream prints of an identifier, a float and a time are outside the
    excerpt. *)
Variable LLUUID : Type.
Variable time_t : Type.
Variable DB_FIRST_NAME_BUF_SIZE : nat.
Variable DB_LAST_NAME_BUF_SIZE : nat.
Variable print_uuid : LLUUID -> string.
Variable print_F32 : F32 -> string.
Variable ctime : time_t -> string.

Record LLMeanCollisionData := mk_collision {
  mVictim : LLUUID;
  mPerp : LLUUID;
  mTime : time_t;
  mType : EMeanCollisionType;
  mMag : F32;
  mFirstName : list ascii;
  mLastName : list ascii
}.

(** The first constructor.  It writes the first character of each name only;
    [first_name_memory] and [last_name_memory] are the arrays as it finds
    them. *)
Definition new_LLMeanCollisionData (victim perp : LLUUID) (time : time_t)
    (type : EMeanCollisionType) (mag : F32)
    (first_name_memory last_name_memory : list ascii) : LLMeanCollisionData :=
  mk_collision victim perp time type mag
    (NUL :: tl first_name_memory) (NUL :: tl last_name_memory).

(** The constructor from a pointer to another record. *)
Definition copy_LLMeanCollisionData (mcd : LLMeanCollisionData) : LLMeanCollisionData :=
  mk_collision (mVictim mcd) (mPerp mcd) (mTime mcd) (mType mcd) (mMag mcd)
    (strncpy (mFirstName mcd) (DB_FIRST_NAME_BUF_SIZE - 1) ++ [NUL])
    (strncpy (mLastName mcd) (DB_LAST_NAME_BUF_SIZE - 1) ++ [NUL]).

(** [operator<<]: what it appends to the stream. *)
Definition print_collision (a : LLMeanCollisionData) : string :=
  match mType a with
  | MEAN_BUMP =>
      ("Mean Collision: " ++ print_uuid (mPerp a) ++ " bumped " ++ print_uuid (mVictim a)
       ++ " with a velocity of " ++ print_F32 (mMag a) ++ " at " ++ ctime (mTime a))%string
  | MEAN_LLPUSHOBJECT =>
      ("Mean Collision: " ++ print_uuid (mPerp a) ++ " llPushObject-ed "
       ++ print_uuid (mVictim a)
       ++ " with a total force of " ++ print_F32 (mMag a) ++ " at " ++ ctime (mTime a))%string
  | MEAN_SELECTED_OBJECT_COLLIDE =>
      ("Mean Collision: " ++ print_uuid (mPerp a) ++ " dragged an object into "
       ++ print_uuid (mVictim a)
       ++ " with a velocity of " ++ print_F32 (mMag a) ++ " at " ++ ctime (mTime a))%string
  | MEAN_SCRIPTED_OBJECT_COLLIDE =>
      ("Mean Collision: " ++ print_uuid (mPerp a) ++ " smacked " ++ print_uuid (mVictim a)
       ++ " with a scripted object with velocity of " ++ print_F32 (mMag a)
       ++ " at " ++ ctime (mTime a))%string
  | MEAN_PHYSICAL_OBJECT_COLLIDE =>
      ("Mean Collision: " ++ print_uuid (mPerp a) ++ " smacked " ++ print_uuid (mVictim a)
       ++ " with a physical object with velocity of " ++ print_F32 (mMag a)
       ++ " at " ++ ctime (mTime a))%string
  | _ => EmptyString
  end.

End MeanCollisionData.

(** ** Order on binary32 numbers *)

Ltac cmp_cases :=
  repeat match goal with
  | |- context [Z.compare ?a ?b] => destruct (Z.compare_spec a b)
  | H : context [Z.compare ?a ?b] |- _ => destruct (Z.compare_spec a b)
  | |- context [Pos.compare_cont Eq ?a ?b] =>
      change (Pos.compare_cont Eq a b) with (Pos.compare a b);
      destruct (Pos.compare_spec a b)
  | H : context [Pos.compare_cont Eq ?a ?b] |- _ =>
      change (Pos.compare_cont Eq a b) with (Pos.compare a b) in H;
      destruct (Pos.compare_spec a b)
  end.

Ltac float_cases x :=
  let s := fresh "s" in
  destruct x as [s | s | | s ? ?]; try destruct s.

Lemma F32_le_refl (x : F32) : not_nan x -> F32_le x x.
Proof.
  unfold not_nan, F32_le, F32ops.leb, SFleb.
  float_cases x; simpl; intros Hx; try discriminate; try reflexivity;
    rewrite Z.compare_refl;
    change (Pos.compare_cont Eq ?a ?b) with (Pos.compare a b);
    rewrite Pos.compare_refl; reflexivity.
Qed.

Lemma F32_le_trans (x y z : F32) : F32_le x y -> F32_le y z -> F32_le x z.
Proof.
  unfold F32_le, F32ops.leb, SFleb.
  float_cases x; float_cases y; float_cases z; simpl; intros Hxy Hyz;
    try discriminate; try reflexivity;
    cmp_cases; simpl in *; try discriminate; try reflexivity; subst; lia.
Qed.

Lemma F32_le_not_nan (x y : F32) : F32_le x y -> not_nan x /\ not_nan y.
Proof.
  unfold F32_le, not_nan, F32ops.leb, SFleb.
  float_cases x; float_cases y; simpl; intros H; try discriminate; split; reflexivity.
Qed.

Lemma ltb_true_le (x y : F32) : F32ops.ltb x y = true -> F32_le x y.
Proof.
  unfold F32_le, F32ops.leb, F32ops.ltb, SFleb, SFltb.
  destruct (SFcompare x y) as [[ | | ] | ]; intros H; try discriminate; reflexivity.
Qed.

Lemma ltb_false_le (x y : F32) :
  not_nan x -> not_nan y -> F32ops.ltb x y = false -> F32_le y x.
Proof.
  unfold not_nan, F32_le, F32ops.leb, F32ops.ltb, SFleb, SFltb.
  float_cases x; float_cases y; simpl; intros Hx Hy H;
    try discriminate; try reflexivity;
    cmp_cases; simpl in *; try discriminate; try reflexivity; subst; lia.
Qed.

Lemma le_ltb_false (x y : F32) : F32_le x y -> F32ops.ltb y x = false.
Proof.
  unfold F32_le, F32ops.leb, F32ops.ltb, SFleb, SFltb.
  float_cases x; float_cases y; simpl; intros H;
    try discriminate; try reflexivity;
    cmp_cases; simpl in *; try discriminate; try reflexivity; subst; lia.
Qed.

(** *** llmin and llmax on numbers *)

Lemma llmin_not_nan (a b : F32) : not_nan a -> not_nan b -> not_nan (llmin a b).
Proof. unfold llmin; destruct (F32ops.ltb a b); auto. Qed.

Lemma llmax_not_nan (a b : F32) : not_nan a -> not_nan b -> not_nan (llmax a b).
Proof. unfold llmax; destruct (F32ops.gtb a b); auto. Qed.

Lemma llmin_le_l (a b : F32) : not_nan a -> not_nan b -> F32_le (llmin a b) a.
Proof.
  intros Ha Hb; unfold llmin; destruct (F32ops.ltb a b) eqn:E.
  - now apply F32_le_refl.
  - now apply ltb_false_le.
Qed.

Lemma llmin_le_r (a b : F32) : not_nan a -> not_nan b -> F32_le (llmin a b) b.
Proof.
  intros Ha Hb; unfold llmin; destruct (F32ops.ltb a b) eqn:E.
  - now apply ltb_true_le.
  - now apply F32_le_refl.
Qed.

Lemma llmax_ge_l (a b : F32) : not_nan a -> not_nan b -> F32_le a (llmax a b).
Proof.
  intros Ha Hb; unfold llmax, F32ops.gtb; destruct (SFltb b a) eqn:E.
  - now apply F32_le_refl.
  - now apply ltb_false_le.
Qed.

Lemma llmax_ge_r (a b : F32) : not_nan a -> not_nan b -> F32_le b (llmax a b).
Proof.
  intros Ha Hb; unfold llmax, F32ops.gtb; destruct (SFltb b a) eqn:E.
  - now apply ltb_true_le.
  - now apply F32_le_refl.
Qed.

(** ** Properties of calc_auto_scale_range *)

Section AutoScaleProperties.

Variable is_approx_equal : F32 -> F32 -> bool.
Variable llceil_log10 : F32 -> S32.
Variable pow10 : S32 -> F64.

Let setup := auto_scale_setup is_approx_equal llceil_log10 pow10.

Lemma f32_0_not_nan : not_nan f32_0.
Proof. reflexivity. Qed.

Lemma clamped_min_spec (min max : F32) :
  not_nan min -> not_nan max ->
  let m := clamped_min (setup min max) in
  not_nan m /\ F32_le m f32_0 /\ F32_le m min /\ F32_le m max.
Proof.
  intros Hmin Hmax; cbn.
  pose proof f32_0_not_nan as H0.
  assert (Hn : not_nan (llmin f32_0 min)) by now apply llmin_not_nan.
  unfold llmin3; repeat split.
  - now apply llmin_not_nan.
  - eapply F32_le_trans; [now apply llmin_le_l | now apply llmin_le_l].
  - eapply F32_le_trans; [now apply llmin_le_l | now apply llmin_le_r].
  - now apply llmin_le_r.
Qed.

Lemma clamped_max_spec (min max : F32) :
  not_nan min -> not_nan max ->
  let m := clamped_max (setup min max) in
  not_nan m /\ F32_le f32_0 m /\ F32_le max m.
Proof.
  intros Hmin Hmax.
  destruct (clamped_min_spec min max Hmin Hmax) as (Hn & _).
  cbn in *.
  pose proof f32_0_not_nan as H0.
  set (min' := llmin3 f32_0 min max) in *.
  assert (Hx : not_nan (llmax f32_0 min')) by now apply llmax_not_nan.
  unfold llmax3; repeat split.
  - now apply llmax_not_nan.
  - eapply F32_le_trans; [| now apply llmax_ge_l]. now apply llmax_ge_l.
  - now apply llmax_ge_r.
Qed.

Lemma ascending_step_encloses (min max smin smax : F32) (st : scan_state) (i : nat) :
  encloses min max st -> encloses min max (ascending_step min max smin smax st i).
Proof.
  unfold encloses, ascending_step; intros [Hlo Hhi].
  repeat match goal with
         | |- context [if ?c && ?d then _ else _] =>
             let E := fresh "E" in
             destruct (c && d) eqn:E; [apply andb_prop in E; destruct E |]
         end;
    unfold out_min, out_max; split; assumption.
Qed.

Lemma descending_step_encloses (min max smin smax : F32) (st : scan_state) (i : nat) :
  encloses min max st -> encloses min max (descending_step min max smin smax st i).
Proof.
  unfold encloses, descending_step; intros [Hlo Hhi].
  repeat match goal with
         | |- context [if ?c && ?d then _ else _] =>
             let E := fresh "E" in
             destruct (c && d) eqn:E; [apply andb_prop in E; destruct E |]
         end;
    unfold out_min, out_max; split; assumption.
Qed.

Lemma fold_left_invariant {A B : Type} (P : A -> Prop) (f : A -> B -> A) (l : list B) :
  (forall a b, P a -> P (f a b)) -> forall a, P a -> P (fold_left f l a).
Proof.
  intros Hstep; induction l as [| b l IH]; cbn; intros a Ha; auto.
Qed.

Lemma loops_enclose (min max : F32) :
  not_nan min -> not_nan max ->
  let su := setup min max in
  encloses (clamped_min su) (clamped_max su)
    (second_loop su (first_loop su (mk_scan (clamped_min su) (clamped_max su) f32_0 f32_0))).
Proof.
  intros Hmin Hmax su.
  destruct (clamped_min_spec min max Hmin Hmax) as (Hn1 & _).
  destruct (clamped_max_spec min max Hmin Hmax) as (Hn2 & _).
  fold su in Hn1, Hn2.
  unfold second_loop, first_loop.
  apply fold_left_invariant; [intros; now apply descending_step_encloses |].
  apply fold_left_invariant; [intros; now apply ascending_step_encloses |].
  split; cbn; now apply F32_le_refl.
Qed.

(** The first loop's guards [min > 0.f] and [max < 0.f] never hold. *)
Lemma ascending_guards_false (min max : F32) :
  not_nan min -> not_nan max ->
  let su := setup min max in
  (clamped_min su >? f32_0)%f32 = false /\ (clamped_max su <? f32_0)%f32 = false.
Proof.
  intros Hmin Hmax su.
  destruct (clamped_min_spec min max Hmin Hmax) as (_ & Hle & _).
  destruct (clamped_max_spec min max Hmin Hmax) as (_ & Hge & _).
  fold su in Hle, Hge.
  split; [unfold F32ops.gtb |]; now apply le_ltb_false.
Qed.

Lemma ascending_step_idle (min max smin smax : F32) (st : scan_state) (i : nat) :
  (min >? f32_0)%f32 = false -> (max <? f32_0)%f32 = false ->
  ascending_step min max smin smax st i = st.
Proof.
  intros H1 H2; unfold ascending_step; rewrite H1, H2; reflexivity.
Qed.

Lemma first_loop_idle (min max : F32) (st : scan_state) :
  not_nan min -> not_nan max ->
  first_loop (setup min max) st = st.
Proof.
  intros Hmin Hmax.
  destruct (ascending_guards_false min max Hmin Hmax) as [H1 H2].
  unfold first_loop.
  apply (fold_left_invariant (fun s => s = st)); [| reflexivity].
  intros a b ->; now apply ascending_step_idle.
Qed.

End AutoScaleProperties.

(** C1: for every pair of observed bounds (two numbers, that is, neither is a
    NaN), the range returned by [calc_auto_scale_range] contains the observed
    data: [out_min <= min] and [max <= out_max].  This holds whatever
    [is_approx_equal], [logf] and [pow] compute. *)
Theorem auto_scale_contains_data
    (is_approx_equal : F32 -> F32 -> bool) (llceil_log10 : F32 -> S32)
    (pow10 : S32 -> F64) (min max : F32) :
  not_nan min -> not_nan max ->
  let r := calc_auto_scale_range is_approx_equal llceil_log10 pow10 min max in
  F32_le (range_min r) min /\ F32_le max (range_max r).
Proof.
  intros Hmin Hmax r.
  destruct (loops_enclose is_approx_equal llceil_log10 pow10 min max Hmin Hmax) as [Hlo Hhi].
  destruct (clamped_min_spec is_approx_equal llceil_log10 pow10 min max Hmin Hmax)
    as (_ & _ & Hcm & _).
  destruct (clamped_max_spec is_approx_equal llceil_log10 pow10 min max Hmin Hmax)
    as (_ & _ & HcM).
  split.
  - eapply F32_le_trans; [exact Hlo | exact Hcm].
  - eapply F32_le_trans; [exact HcM | exact Hhi].
Qed.

Lemma auto_scale_contains_data_witness :
  let min := F32ops.of_Z (-3) in
  let max := F32ops.of_Z 42 in
  let r := calc_auto_scale_range ref_is_approx_equal ref_llceil_log10 ref_pow10 min max in
  (not_nan min /\ not_nan max) /\ F32_le (range_min r) min /\ F32_le max (range_max r).
Proof.
  split; [split; reflexivity |].
  apply (auto_scale_contains_data ref_is_approx_equal ref_llceil_log10 ref_pow10
           (F32ops.of_Z (-3)) (F32ops.of_Z 42)); reflexivity.
Defined.

(** C3, as amended: for every pair of observed bounds that are numbers
    (neither is a NaN), the range returned by [calc_auto_scale_range] brackets
    zero: [out_min <= 0 <= out_max]. *)
Theorem auto_scale_brackets_zero
    (is_approx_equal : F32 -> F32 -> bool) (llceil_log10 : F32 -> S32)
    (pow10 : S32 -> F64) (min max : F32) :
  not_nan min -> not_nan max ->
  let r := calc_auto_scale_range is_approx_equal llceil_log10 pow10 min max in
  F32_le (range_min r) f32_0 /\ F32_le f32_0 (range_max r).
Proof.
  intros Hmin Hmax r.
  destruct (loops_enclose is_approx_equal llceil_log10 pow10 min max Hmin Hmax) as [Hlo Hhi].
  destruct (clamped_min_spec is_approx_equal llceil_log10 pow10 min max Hmin Hmax)
    as (_ & Hcm & _).
  destruct (clamped_max_spec is_approx_equal llceil_log10 pow10 min max Hmin Hmax)
    as (_ & HcM & _).
  split.
  - eapply F32_le_trans; [exact Hlo | exact Hcm].
  - eapply F32_le_trans; [exact HcM | exact Hhi].
Qed.

Lemma auto_scale_brackets_zero_witness :
  let min := F32ops.of_Z 3 in
  let max := F32ops.of_Z 42 in
  let r := calc_auto_scale_range ref_is_approx_equal ref_llceil_log10 ref_pow10 min max in
  (not_nan min /\ not_nan max) /\ F32_le (range_min r) f32_0 /\ F32_le f32_0 (range_max r).
Proof.
  split; [split; reflexivity |].
  apply (auto_scale_brackets_zero ref_is_approx_equal ref_llceil_log10 ref_pow10
           (F32ops.of_Z 3) (F32ops.of_Z 42)); reflexivity.
Defined.

(** C3 as stated fails for a NaN bound.  For [min] a NaN and [max = 42] the
    clamp [llmin(0.f, min, max)] gives 42: the comparison [0.f < NaN] is false
    and selects the NaN, and [NaN < 42] is false and selects 42.  The range
    returned is from 30 to 50, which does not bracket zero. *)
Lemma nan_bound_not_bracketed_counterexample :
  let min := S754_nan in
  let max := F32ops.of_Z 42 in
  let r := calc_auto_scale_range ref_is_approx_equal ref_llceil_log10 ref_pow10 min max in
  range_min r = F32ops.of_Z 30 /\ range_max r = F32ops.of_Z 50 /\
  F32ops.leb (range_min r) f32_0 = false /\
  ~ (F32_le (range_min r) f32_0 /\ F32_le f32_0 (range_max r)).
Proof.
  cbv zeta; split; [| split; [| split]].
  - vm_compute; reflexivity.
  - vm_compute; reflexivity.
  - vm_compute; reflexivity.
  - intros [H _]; vm_compute in H; discriminate.
Qed.

(** C9, as amended: after the initial clamping the working [min] is at most 0
    and the working [max] at least 0, for every input pair of numbers
    (neither is a NaN); so the guards
    [min > 0.f] and [max < 0.f] of the first (ascending) loop are false, that
    loop leaves [out_min], [out_max], [cur_tick_min] and [cur_tick_max] as they
    were, and the result is the one the clamp and the second (descending) loop
    give. *)
Theorem first_loop_is_dead
    (is_approx_equal : F32 -> F32 -> bool) (llceil_log10 : F32 -> S32)
    (pow10 : S32 -> F64) (min max : F32) :
  not_nan min -> not_nan max ->
  let su := auto_scale_setup is_approx_equal llceil_log10 pow10 min max in
  (F32_le (clamped_min su) f32_0 /\ F32_le f32_0 (clamped_max su)) /\
  ((clamped_min su >? f32_0)%f32 = false /\ (clamped_max su <? f32_0)%f32 = false) /\
  (forall st : scan_state, first_loop su st = st) /\
  calc_auto_scale_range is_approx_equal llceil_log10 pow10 min max =
    scan_result su (second_loop su (mk_scan (clamped_min su) (clamped_max su) f32_0 f32_0)).
Proof.
  intros Hmin Hmax su.
  destruct (clamped_min_spec is_approx_equal llceil_log10 pow10 min max Hmin Hmax)
    as (_ & Hcm & _).
  destruct (clamped_max_spec is_approx_equal llceil_log10 pow10 min max Hmin Hmax)
    as (_ & HcM & _).
  repeat split.
  - exact Hcm.
  - exact HcM.
  - now apply ascending_guards_false.
  - now apply ascending_guards_false.
  - intros st; now apply first_loop_idle.
  - unfold calc_auto_scale_range; fold su.
    now rewrite (first_loop_idle is_approx_equal llceil_log10 pow10 min max).
Qed.

Lemma first_loop_is_dead_witness :
  let min := F32ops.of_Z 3 in
  let max := F32ops.of_Z 42 in
  let su := auto_scale_setup ref_is_approx_equal ref_llceil_log10 ref_pow10 min max in
  (not_nan min /\ not_nan max) /\
  (F32_le (clamped_min su) f32_0 /\ F32_le f32_0 (clamped_max su)) /\
  ((clamped_min su >? f32_0)%f32 = false /\ (clamped_max su <? f32_0)%f32 = false) /\
  (forall st : scan_state, first_loop su st = st) /\
  calc_auto_scale_range ref_is_approx_equal ref_llceil_log10 ref_pow10 min max =
    scan_result su (second_loop su (mk_scan (clamped_min su) (clamped_max su) f32_0 f32_0)).
Proof.
  split; [split; reflexivity |].
  apply (first_loop_is_dead ref_is_approx_equal ref_llceil_log10 ref_pow10
           (F32ops.of_Z 3) (F32ops.of_Z 42)); reflexivity.
Defined.

(** C9 as stated fails for a NaN bound.  For [min] a NaN and [max = 42] the
    working [min] after the clamp is 42, the guard [min > 0.f] of the first
    loop holds, and that loop moves [out_min] from 42 to 30.  The result,
    from 30 to 50, is not the one the clamp and the second loop alone give,
    from 42 to 50. *)
Lemma nan_bound_first_loop_counterexample :
  let min := S754_nan in
  let max := F32ops.of_Z 42 in
  let su := auto_scale_setup ref_is_approx_equal ref_llceil_log10 ref_pow10 min max in
  let st0 := mk_scan (clamped_min su) (clamped_max su) f32_0 f32_0 in
  clamped_min su = F32ops.of_Z 42 /\
  (clamped_min su >? f32_0)%f32 = true /\
  out_min st0 = F32ops.of_Z 42 /\
  out_min (first_loop su st0) = F32ops.of_Z 30 /\
  first_loop su st0 <> st0 /\
  range_min (calc_auto_scale_range ref_is_approx_equal ref_llceil_log10 ref_pow10 min max)
    = F32ops.of_Z 30 /\
  range_min (scan_result su (second_loop su st0)) = F32ops.of_Z 42 /\
  calc_auto_scale_range ref_is_approx_equal ref_llceil_log10 ref_pow10 min max
    <> scan_result su (second_loop su st0).
Proof.
  cbv zeta; repeat split; try (vm_compute; reflexivity).
  - intros E; apply (f_equal out_min) in E; vm_compute in E; discriminate.
  - intros E; apply (f_equal range_min) in E; vm_compute in E; discriminate.
Qed.

(** ** Properties of calc_tick_value: the choice of the divisor *)

Section TickValueChoice.

Variable is_approx_equal : F32 -> F32 -> bool.
Variable llceil_log10 : F32 -> S32.
Variable pow10 : S32 -> F64.

Let clean_at (min possible_tick_value : F32) (digit_count : S32) : bool :=
  rounds_cleanly is_approx_equal (test_tick_value pow10 min possible_tick_value digit_count).

(** What the inner loop returns: the first digit count of its range at which
    the candidate rounds cleanly. *)
Lemma digit_scan_some (steps : nat) (min ptv : F32) (start k : S32) :
  digit_scan is_approx_equal pow10 steps min ptv start = Some k ->
  (start <= k < start + Z.of_nat steps) /\
  clean_at min ptv k = true /\
  (forall j, start <= j < k -> clean_at min ptv j = false).
Proof.
  revert start; induction steps as [| n IH]; intros start; cbn [digit_scan].
  - discriminate.
  - destruct (rounds_cleanly _ _) eqn:E.
    + intros [= <-]; repeat split; try lia; exact E.
    + intros H; apply IH in H; destruct H as (Hr & Hk & Hbelow).
      repeat split; try lia; [exact Hk |].
      intros j Hj; destruct (Z.eq_dec j start) as [-> | Hne]; [exact E |].
      apply Hbelow; lia.
Qed.

Lemma digit_scan_none (steps : nat) (min ptv : F32) (start : S32) :
  digit_scan is_approx_equal pow10 steps min ptv start = None ->
  forall j, start <= j < start + Z.of_nat steps -> clean_at min ptv j = false.
Proof.
  revert start; induction steps as [| n IH]; intros start; cbn [digit_scan].
  - intros _ j Hj; lia.
  - destruct (rounds_cleanly _ _) eqn:E; [discriminate |].
    intros H j Hj; destruct (Z.eq_dec j start) as [-> | Hne]; [exact E |].
    apply (IH _ H); lia.
Qed.

Let first_clean := first_clean_digit_count is_approx_equal llceil_log10 pow10.

Lemma first_clean_below_6 (min range : F32) (divisor k : S32) :
  first_clean min range divisor = Some k -> k < 6.
Proof.
  unfold first_clean, first_clean_digit_count; intros H.
  apply digit_scan_some in H; destruct H as (Hr & _); lia.
Qed.
Lemma divisor_scan_outcome (min range : F32) (l : list S32) (b0 : best_choice) :
  scan_outcome is_approx_equal llceil_log10 pow10 min range l b0
    (fold_left (divisor_step is_approx_equal llceil_log10 pow10 min range) l b0).
Proof.
  revert b0; induction l as [| d l IH]; intros b0; cbn [fold_left].
  - left; split; [reflexivity | intros d k []].
  - specialize (IH (divisor_step is_approx_equal llceil_log10 pow10 min range b0 d)).
    set (b := fold_left _ l _) in *.
    unfold divisor_step in IH.
    destruct (first_clean_digit_count is_approx_equal llceil_log10 pow10 min range d)
      as [kd |] eqn:Ed.
    1: destruct (Z.ltb_spec kd (best_decimal_digit_count b0)) as [Elt | Elt].
    + (* d takes the lead *)
      right; destruct IH as [[Hb Hall] | (l1 & l2 & Hl & Hf & Hlt & H1 & H2)].
      * exists [], l; rewrite Hb; cbn in *.
        repeat split; auto; intros d' k' [].
      * exists (d :: l1), l2; cbn in *. rewrite Hl.
        repeat split; auto; try lia.
        intros d' k' [<- | Hin] Hd'; [| eauto].
        rewrite Ed in Hd'; injection Hd' as <-; exact Hlt.
    + (* d does not beat the current best *)
      destruct IH as [[Hb Hall] | (l1 & l2 & Hl & Hf & Hlt & H1 & H2)].
      * left; split; [exact Hb |].
        intros d' k' [<- | Hin] Hd'; [| eauto].
        rewrite Ed in Hd'; injection Hd' as <-; exact Elt.
      * right; exists (d :: l1), l2; cbn. rewrite Hl.
        repeat split; auto.
        intros d' k' [<- | Hin] Hd'; [| eauto].
        rewrite Ed in Hd'; injection Hd' as <-; lia.
    + (* d never rounds cleanly *)
      destruct IH as [[Hb Hall] | (l1 & l2 & Hl & Hf & Hlt & H1 & H2)].
      * left; split; [exact Hb |].
        intros d' k' [<- | Hin] Hd'; [congruence | eauto].
      * right; exists (d :: l1), l2; cbn. rewrite Hl.
        repeat split; auto.
        intros d' k' [<- | Hin] Hd'; [congruence | eauto].
Qed.

Lemma chosen_divisor_in_DIVISORS (min range : F32) :
  In (best_divisor (choose_divisor is_approx_equal llceil_log10 pow10 min range)) DIVISORS.
Proof.
  unfold choose_divisor.
  destruct (divisor_scan_outcome min range DIVISORS (mk_best S32_MAX 10))
    as [[-> _] | (l1 & l2 & Hl & _)].
  - cbn; tauto.
  - set (d := best_divisor _) in *; rewrite Hl; apply in_elt.
Qed.

End TickValueChoice.

(** C4, as amended: a nonzero result of [calc_tick_value] is
    [(max - min) / d] for a divisor [d] of [DIVISORS = 6, 8, 10, 4, 5].  When
    at least one divisor's candidate rounds cleanly at a scanned digit count
    (one below 6), [d] is the first divisor in scan order that reaches the
    smallest such digit count: every divisor before it needs strictly more
    digits, every divisor after it at least as many.  When no candidate
    rounds cleanly, [d] is the default 10. *)
Theorem tick_value_divisor_choice
    (is_approx_equal : F32 -> F32 -> bool) (llceil_log10 : F32 -> S32)
    (pow10 : S32 -> F64) (min max : F32) :
  let range := (max - min)%f32 in
  let first_clean := first_clean_digit_count is_approx_equal llceil_log10 pow10 min range in
  let best := choose_divisor is_approx_equal llceil_log10 pow10 min range in
  let d := best_divisor best in
  let r := calc_tick_value is_approx_equal llceil_log10 pow10 min max in
  In d DIVISORS /\
  (F32ops.eqb r f32_0 = false -> r = (range / F32ops.of_Z d)%f32) /\
  (((forall d', In d' DIVISORS -> first_clean d' = None) /\ d = 10)
   \/
   (exists l1 l2,
      DIVISORS = l1 ++ d :: l2 /\
      first_clean d = Some (best_decimal_digit_count best) /\
      (forall d' k, In d' l1 -> first_clean d' = Some k ->
                    best_decimal_digit_count best < k) /\
      (forall d' k, In d' l2 -> first_clean d' = Some k ->
                    best_decimal_digit_count best <= k))).
Proof.
  intros range first_clean best d r.
  split; [apply chosen_divisor_in_DIVISORS |].
  split.
  - subst r; unfold calc_tick_value; fold range; fold best; fold d.
    destruct (is_approx_equal range f32_0); [discriminate | reflexivity].
  - subst d best; unfold choose_divisor.
    destruct (divisor_scan_outcome is_approx_equal llceil_log10 pow10 min range
                DIVISORS (mk_best S32_MAX 10))
      as [[Hb Hall] | (l1 & l2 & Hl & Hf & _ & H1 & H2)].
    + left; rewrite Hb; split; [| reflexivity].
      intros d' Hin; destruct (first_clean d') as [k |] eqn:E; [| reflexivity].
      pose proof (Hall d' k Hin E) as Hge.
      apply first_clean_below_6 in E.
      cbn in Hge; unfold S32_MAX in Hge; lia.
    + right; exists l1, l2; repeat split; assumption.
Qed.

(** C4 as stated fails when no candidate rounds cleanly: for [min = 0] and
    [max] the float nearest to 1/3 the result is nonzero and is the range
    divided by the default 10, although no divisor's candidate, that of 10
    included, rounds cleanly at any scanned digit count. *)
Lemma default_divisor_counterexample :
  let min := f32_0 in
  let max := (F32ops.of_Z 1 / F32ops.of_Z 3)%f32 in
  let range := (max - min)%f32 in
  let r := calc_tick_value ref_is_approx_equal ref_llceil_log10 ref_pow10 min max in
  F32ops.eqb r f32_0 = false /\
  r = (range / F32ops.of_Z 10)%f32 /\
  first_clean_digit_count ref_is_approx_equal ref_llceil_log10 ref_pow10 min range 10 = None /\
  (forall d, In d DIVISORS ->
     first_clean_digit_count ref_is_approx_equal ref_llceil_log10 ref_pow10 min range d = None).
Proof.
  cbv zeta; split; [| split; [| split]].
  - vm_compute; reflexivity.
  - vm_compute; reflexivity.
  - vm_compute; reflexivity.
  - intros d Hin; cbn in Hin.
    repeat (destruct Hin as [<- | Hin]; [vm_compute; reflexivity |]).
    destruct Hin.
Qed.

(** ** Facts on rounding: signs *)

Section RoundingSigns.

Variables prec emax : Z.

Lemma iter_pos_invariant {A : Type} (P : A -> Prop) (f : A -> A) :
  (forall x, P x -> P (f x)) -> forall p x, P x -> P (iter_pos f p x).
Proof.
  intros Hf; induction p as [p IH | p IH |]; cbn; intros x Hx; auto.
Qed.

Lemma shr_1_nonneg (mrs : shr_record) : 0 <= shr_m mrs -> 0 <= shr_m (shr_1 mrs).
Proof.
  destruct mrs as [m r s]; cbn.
  destruct m as [| [p | p |] | p]; cbn; lia.
Qed.

Lemma shr_nonneg (mrs : shr_record) (e n : Z) :
  0 <= shr_m mrs -> 0 <= shr_m (fst (shr mrs e n)).
Proof.
  intros H; unfold shr; destruct n; cbn; auto.
  apply iter_pos_invariant; auto using shr_1_nonneg.
Qed.

Lemma shr_record_of_loc_m (m : Z) (l : location) : shr_m (shr_record_of_loc m l) = m.
Proof. destruct l as [| []]; reflexivity. Qed.

Lemma shr_fexp_nonneg (m e : Z) (l : location) :
  0 <= m -> 0 <= shr_m (fst (shr_fexp prec emax m e l)).
Proof.
  intros H; unfold shr_fexp; apply shr_nonneg.
  now rewrite shr_record_of_loc_m.
Qed.

Lemma round_nearest_even_ge (m : Z) (l : location) : m <= round_nearest_even m l.
Proof.
  unfold round_nearest_even; destruct l as [| []]; try destruct (Z.even m); lia.
Qed.

Lemma binary_round_aux_sign (s : bool) (m e : Z) (l : location) :
  0 <= m -> has_sign s (binary_round_aux prec emax s m e l).
Proof.
  intros Hm; unfold binary_round_aux.
  pose proof (shr_fexp_nonneg m e l Hm) as H1.
  destruct (shr_fexp prec emax m e l) as [mrs' e']; cbn [fst] in H1.
  pose proof (round_nearest_even_ge (shr_m mrs') (loc_of_shr_record mrs')) as H2.
  set (m1 := round_nearest_even _ _) in *.
  assert (Hm1 : 0 <= m1) by lia.
  pose proof (shr_fexp_nonneg m1 e' loc_Exact Hm1) as H3.
  destruct (shr_fexp prec emax m1 e' loc_Exact) as [mrs'' e'']; cbn [fst] in H3.
  destruct (shr_m mrs'') as [| p | p]; cbn; try reflexivity; try lia.
  destruct (e'' <=? emax - prec); reflexivity.
Qed.

Lemma binary_round_sign (s : bool) (m : positive) (e : Z) :
  has_sign s (binary_round prec emax s m e).
Proof.
  unfold binary_round.
  destruct (shl_align m e _) as [mz ez].
  apply binary_round_aux_sign; lia.
Qed.

Lemma binary_normalize_nonneg (m e : Z) :
  0 <= m -> nonneg_float (binary_normalize prec emax m e false).
Proof.
  intros Hm; destruct m as [| p | p]; cbn [binary_normalize nonneg_float].
  - exact I.
  - pose proof (binary_round_sign false p e) as H.
    destruct (binary_round prec emax false p e); cbn in *; auto.
  - lia.
Qed.

(** A non-negative number divided by a positive finite one is non-negative. *)
Lemma div_nonneg (x : spec_float) (md : positive) (ed : Z) :
  nonneg_float x -> nonneg_float (SFdiv prec emax x (S754_finite false md ed)).
Proof.
  destruct x as [s | s | | s mx ex]; cbn [SFdiv nonneg_float]; intros Hx.
  - exact I.
  - subst s; reflexivity.
  - exact Hx.
  - subst s; unfold SFdiv_core_binary.
    set (e' := Z.min _ _).
    set (m' := match ex - ed - e' with Z0 => _ | Zpos _ => _ | Zneg _ => _ end).
    assert (Hm' : 0 <= m').
    { subst m'; destruct (ex - ed - e') eqn:E; try lia.
      apply Z.shiftl_nonneg; lia. }
    pose proof (Z.div_pos m' (Zpos md) Hm' eq_refl) as Hq.
    unfold Z.div in Hq.
    destruct (Z.div_eucl m' (Zpos md)) as [q r]; cbn [fst] in Hq.
    pose proof (binary_round_aux_sign (xorb false false) q e'
                  (new_location (Zpos md) r) Hq) as H.
    destruct (binary_round_aux _ _ _ _ _ _); cbn in *; auto.
Qed.

Lemma div_zero (x : spec_float) (s : bool) (md : positive) (ed : Z) :
  zero_float x -> zero_float (SFdiv prec emax x (S754_finite s md ed)).
Proof. destruct x; cbn; tauto. Qed.

End RoundingSigns.

Lemma nonneg_float_le (x : F32) : nonneg_float x -> F32_le f32_0 x.
Proof. float_cases x; cbn; intros H; try discriminate; tauto || reflexivity. Qed.

Lemma zero_float_eqb (x : F32) : zero_float x -> F32ops.eqb x f32_0 = true.
Proof. float_cases x; cbn; intros H; tauto || reflexivity. Qed.

(** ** Facts on binary32 numbers: mantissas and the order *)

Lemma pos_iter_xO (m d : positive) : Zpos (Pos.iter xO m d) = Zpos m * 2 ^ Zpos d.
Proof.
  induction d as [| d IH] using Pos.peano_ind.
  - cbn; lia.
  - rewrite Pos.iter_succ, Pos2Z.inj_xO, IH, Pos2Z.inj_succ, Z.pow_succ_r by lia.
    lia.
Qed.

Lemma shl_align_value (m : positive) (e e' : Z) :
  e' <= e -> Zpos (fst (shl_align m e e')) = Zpos m * 2 ^ (e - e').
Proof.
  intros H; unfold shl_align.
  destruct (e' - e) as [| d | d] eqn:E; cbn [fst]; try lia.
  - replace (e - e') with 0 by lia; lia.
  - rewrite pos_iter_xO; f_equal; f_equal; lia.
Qed.

Lemma digits2_pos_bounds (m : positive) :
  2 ^ (Zpos (digits2_pos m) - 1) <= Zpos m < 2 ^ Zpos (digits2_pos m).
Proof.
  induction m as [m IH | m IH |]; cbn [digits2_pos]; [| | cbn; lia];
    rewrite Pos2Z.inj_succ;
    replace (Z.succ (Zpos (digits2_pos m)) - 1) with (Z.succ (Zpos (digits2_pos m) - 1)) by lia;
    rewrite !Z.pow_succ_r by lia; lia.
Qed.

(** A canonical binary32 mantissa has at most 24 bits, and exactly 24 above
    the smallest exponent, -149. *)
Lemma bounded_F32 (m : positive) (e : Z) :
  bounded F32ops.prec F32ops.emax m e = true ->
  -149 <= e <= 104 /\ Zpos (digits2_pos m) <= 24 /\
  (-149 < e -> Zpos (digits2_pos m) = 24).
Proof.
  unfold bounded, canonical_mantissa, fexp, emin, F32ops.prec, F32ops.emax.
  intros H; apply andb_prop in H; destruct H as [H1 H2].
  apply Z.eqb_eq in H1; apply Z.leb_le in H2; lia.
Qed.

Lemma aligned_lt (m1 m2 : positive) (e1 e2 : Z) :
  bounded F32ops.prec F32ops.emax m1 e1 = true ->
  bounded F32ops.prec F32ops.emax m2 e2 = true ->
  e1 < e2 ->
  Zpos m1 < Zpos m2 * 2 ^ (e2 - e1).
Proof.
  intros H1 H2 Hlt.
  apply bounded_F32 in H1; apply bounded_F32 in H2.
  destruct H1 as (He1 & Hd1 & _), H2 as (He2 & _ & Hn2).
  pose proof (digits2_pos_bounds m1) as B1.
  pose proof (digits2_pos_bounds m2) as B2.
  rewrite Hn2 in B2 by lia.
  assert (Zpos m1 < 2 ^ 24).
  { eapply Z.lt_le_trans; [apply B1 |]. apply Z.pow_le_mono_r; lia. }
  assert (2 ^ 1 <= 2 ^ (e2 - e1)) by (apply Z.pow_le_mono_r; lia).
  change (2 ^ (24 - 1)) with 8388608 in B2.
  change (2 ^ 24) with 16777216 in *.
  change (2 ^ 1) with 2 in *.
  nia.
Qed.

(** For canonical finite numbers the order agrees with the order of the
    aligned mantissas, so [x - y] is non-negative when [y <= x]. *)
Lemma sub_nonneg (x y : F32) :
  F32_valid x -> F32_valid y -> F32_finite x -> F32_finite y ->
  F32_le y x -> nonneg_float (x - y)%f32.
Proof.
  unfold F32_valid, F32_finite, F32_le, F32ops.leb, SFleb, F32ops.sub.
  destruct x as [sx | sx | | sx mx ex]; destruct y as [sy | sy | | sy my ey];
    cbn [valid_binary F32ops.is_finite SFcompare SFsub];
    intros Vx Vy Fx Fy Hle; try discriminate.
  - destruct sx, sy; exact I.
  - destruct sy; cbn in *; [reflexivity | discriminate].
  - destruct sx; cbn in *; [discriminate | reflexivity].
  - apply binary_normalize_nonneg.
    rewrite !shl_align_value by lia.
    destruct sx, sy; cbn [cond_Zopp]; try discriminate; try lia;
      (destruct (Z.compare_spec ey ex) as [-> | Hlt | Hgt]; cbn [CompOpp] in Hle;
       try discriminate;
       [ rewrite Z.min_id, Z.sub_diag, !Z.mul_1_r;
         change (Pos.compare_cont Eq my mx) with (Pos.compare my mx) in Hle;
         destruct (Pos.compare_spec my mx); cbn [CompOpp] in Hle;
         try discriminate; lia
       | ]).
    + (* both negative: the exponent of x is the smaller one *)
      pose proof (aligned_lt mx my ex ey Vx Vy Hgt).
      rewrite Z.min_l, Z.sub_diag, Z.mul_1_r by lia; lia.
    + (* both positive: the exponent of y is the smaller one *)
      pose proof (aligned_lt my mx ey ex Vy Vx Hlt).
      rewrite Z.min_r, Z.sub_diag, Z.mul_1_r by lia; lia.
Qed.

(** Equal finite numbers have a zero difference. *)
Lemma sub_equal_zero (x y : F32) :
  F32_finite x -> F32_finite y -> F32ops.eqb x y = true -> zero_float (x - y)%f32.
Proof.
  unfold F32_finite, F32ops.eqb, SFeqb, F32ops.sub.
  destruct x as [sx | sx | | sx mx ex]; destruct y as [sy | sy | | sy my ey];
    cbn [F32ops.is_finite SFcompare SFsub]; intros Fx Fy Heq; try discriminate.
  - destruct sx, sy; exact I.
  - destruct sy; discriminate.
  - destruct sx; discriminate.
  - destruct sx, sy; try discriminate;
      destruct (Z.compare_spec ex ey) as [-> | |]; try discriminate;
      change (Pos.compare_cont Eq mx my) with (Pos.compare mx my) in Heq;
      destruct (Pos.compare_spec mx my) as [-> | |]; try discriminate;
      cbn [cond_Zopp]; rewrite Z.sub_diag; exact I.
Qed.


(** ** Properties of calc_tick_value: the sign of the result *)

Lemma of_Z_divisor (d : S32) :
  In d DIVISORS -> exists m e, F32ops.of_Z d = S754_finite false m e.
Proof.
  cbn; intros H.
  repeat (destruct H as [<- | H]; [vm_compute; eauto |]).
  destruct H.
Qed.

Section TickValueSign.

Variable is_approx_equal : F32 -> F32 -> bool.
Variable llceil_log10 : F32 -> S32.
Variable pow10 : S32 -> F64.

Let tick_value := calc_tick_value is_approx_equal llceil_log10 pow10.

Lemma tick_value_of_nonneg_range (min max : F32) :
  nonneg_float (max - min)%f32 -> nonneg_float (tick_value min max).
Proof.
  intros Hr; unfold tick_value, calc_tick_value.
  destruct (is_approx_equal _ _); [exact I |].
  destruct (of_Z_divisor _
              (chosen_divisor_in_DIVISORS is_approx_equal llceil_log10 pow10 min
                 (max - min)%f32)) as (m & e & ->).
  now apply div_nonneg.
Qed.

Lemma tick_value_of_zero_range (min max : F32) :
  zero_float (max - min)%f32 -> zero_float (tick_value min max).
Proof.
  intros Hr; unfold tick_value, calc_tick_value.
  destruct (is_approx_equal _ _); [exact I |].
  destruct (of_Z_divisor _
              (chosen_divisor_in_DIVISORS is_approx_equal llceil_log10 pow10 min
                 (max - min)%f32)) as (m & e & ->).
  now apply div_zero.
Qed.

End TickValueSign.





(** ** calc_tick_value on the range from 0 to 100 *)

Lemma within_one_cases (n v : Z) :
  Z.abs (n - v) <= 1 -> n = v - 1 \/ n = v \/ n = v + 1.
Proof. lia. Qed.

(** The digit count at which a divisor's candidate first rounds cleanly, when
    the number of whole digits is off by [off] from the exact one. *)
Lemma first_clean_0_100 (llceil_log10 : F32 -> S32) (d : S32) :
  (forall x, Z.abs (llceil_log10 x - ref_llceil_log10 x) <= 1) ->
  In (first_clean_digit_count ref_is_approx_equal llceil_log10 ref_pow10
        f32_0 (f32_100 - f32_0)%f32 d)
     (map (fun off =>
             first_clean_digit_count ref_is_approx_equal
               (fun x => ref_llceil_log10 x + off) ref_pow10
               f32_0 (f32_100 - f32_0)%f32 d)
          [-1; 0; 1]).
Proof.
  intros H; unfold first_clean_digit_count; cbn [map In].
  set (x := (f32_0 + _)%f32).
  destruct (within_one_cases _ _ (H x)) as [-> | [-> | ->]].
  - left; f_equal; f_equal; lia.
  - right; left; now rewrite Z.add_0_r.
  - right; right; left; reflexivity.
Qed.

(** C5: for [min = 0] and [max = 100], [calc_tick_value] returns 10, 20 or 25,
    for every digit count [llceil(logf(x) * OO_LN10)] that is within one of
    the exact number of whole decimal digits of [x]; [is_approx_equal] and
    [pow] are the reference ones. *)
Theorem tick_value_0_100 (llceil_log10 : F32 -> S32) :
  (forall x, Z.abs (llceil_log10 x - ref_llceil_log10 x) <= 1) ->
  let r := calc_tick_value ref_is_approx_equal llceil_log10 ref_pow10 f32_0 f32_100 in
  r = F32ops.of_Z 10 \/ r = F32ops.of_Z 20 \/ r = F32ops.of_Z 25.
Proof.
  intros H r; subst r.
  unfold calc_tick_value, choose_divisor, DIVISORS.
  cbn [fold_left].
  unfold divisor_step.
  repeat match goal with
  | |- context [first_clean_digit_count ref_is_approx_equal llceil_log10 ref_pow10
                  f32_0 (f32_100 - f32_0)%f32 ?d] =>
      let c := fresh "c" in
      let Hc := fresh "Hc" in
      pose proof (first_clean_0_100 llceil_log10 d H) as Hc;
      set (c := first_clean_digit_count ref_is_approx_equal llceil_log10 ref_pow10
                  f32_0 (f32_100 - f32_0)%f32 d) in *;
      clearbody c; vm_compute in Hc
  end.
  clear H.
  repeat match goal with
  | Hc : _ \/ _ |- _ => destruct Hc as [<- | Hc]
  | Hc : False |- _ => destruct Hc
  end.
  all: vm_compute; tauto.
Qed.

Lemma tick_value_0_100_witness :
  let r := calc_tick_value ref_is_approx_equal ref_llceil_log10 ref_pow10 f32_0 f32_100 in
  (forall x, Z.abs (ref_llceil_log10 x - ref_llceil_log10 x) <= 1) /\
  (r = F32ops.of_Z 10 \/ r = F32ops.of_Z 20 \/ r = F32ops.of_Z 25).
Proof.
  assert (H : forall x, Z.abs (ref_llceil_log10 x - ref_llceil_log10 x) <= 1)
    by (intros x; rewrite Z.sub_diag; cbn; lia).
  split; [exact H | exact (tick_value_0_100 ref_llceil_log10 H)].
Defined.

(** ** The bar range of the widget *)

Section WidgetRange.

Variable is_approx_equal : F32 -> F32 -> bool.
Variable llceil_log10 : F32 -> S32.
Variable pow10 : S32 -> F64.

Let auto_scale := calc_auto_scale_range is_approx_equal llceil_log10 pow10.

(** The four bounds on the range that [calc_auto_scale_range] returns. *)
Lemma auto_scale_bounds (min max : F32) :
  not_nan min -> not_nan max ->
  F32_le (range_min (auto_scale min max)) min /\
  F32_le max (range_max (auto_scale min max)) /\
  F32_le (range_min (auto_scale min max)) f32_0 /\
  F32_le f32_0 (range_max (auto_scale min max)).
Proof.
  intros Hmin Hmax.
  destruct (loops_enclose is_approx_equal llceil_log10 pow10 min max Hmin Hmax) as [Hlo Hhi].
  destruct (clamped_min_spec is_approx_equal llceil_log10 pow10 min max Hmin Hmax)
    as (_ & Hc0 & Hcm & _).
  destruct (clamped_max_spec is_approx_equal llceil_log10 pow10 min max Hmin Hmax)
    as (_ & HC0 & HcM).
  repeat split.
  - eapply F32_le_trans; [exact Hlo | exact Hcm].
  - eapply F32_le_trans; [exact HcM | exact Hhi].
  - eapply F32_le_trans; [exact Hlo | exact Hc0].
  - eapply F32_le_trans; [exact HC0 | exact Hhi].
Qed.

Lemma llmin_le_llmax (a b : F32) : not_nan a -> not_nan b -> F32_le (llmin a b) (llmax a b).
Proof.
  intros Ha Hb; eapply F32_le_trans; [now apply llmin_le_l | now apply llmax_ge_l].
Qed.

Lemma llmin_le_llmax_swapped (a b : F32) :
  not_nan a -> not_nan b -> F32_le (llmin a b) (llmax b a).
Proof.
  intros Ha Hb; eapply F32_le_trans; [now apply llmin_le_l | now apply llmax_ge_r].
Qed.

Lemma new_LLStatBar_range (p : Params) :
  let w := new_LLStatBar is_approx_equal llceil_log10 pow10 p in
  mMinBar w = llmin (getValue (bar_min p)) (getValue (bar_max p)) /\
  mMaxBar w = llmax (getValue (bar_max p)) (getValue (bar_min p)).
Proof.
  unfold new_LLStatBar; destruct (_ && _); split; reflexivity.
Qed.

Lemma drawTicks_ordered (w : LLStatBar) (min max value_scale : F32) :
  F32_le (mMinBar w) (mMaxBar w) -> not_nan min -> not_nan max ->
  let w' := drawTicks is_approx_equal llceil_log10 pow10 w min max value_scale in
  F32_le (mMinBar w') (mMaxBar w').
Proof.
  intros Hord Hmin Hmax.
  destruct (F32_le_not_nan _ _ Hord) as [Nlo Nhi].
  unfold drawTicks.
  destruct (_ || _); [| exact Hord].
  destruct (mAutoScaleMin w) eqn:Amin, (mAutoScaleMax w) eqn:Amax; cbn [andb].
  - (* both ends scale: the new range brackets zero *)
    assert (N1 : not_nan (llmin (mMinBar w) min)) by now apply llmin_not_nan.
    assert (N2 : not_nan (llmax (mMaxBar w) max)) by now apply llmax_not_nan.
    destruct (auto_scale_bounds _ _ N1 N2) as (_ & _ & H0 & H1).
    unfold auto_scale in H0, H1.
    destruct (calc_auto_scale_range _ _ _ _ _) as [[lo hi] tk]; cbn in *.
    eapply F32_le_trans; [exact H0 | exact H1].
  - (* only the lower end scales: it moves down *)
    assert (N1 : not_nan (llmin (mMinBar w) min)) by now apply llmin_not_nan.
    destruct (auto_scale_bounds _ _ N1 Nhi) as (H0 & _).
    unfold auto_scale in H0.
    destruct (calc_auto_scale_range _ _ _ _ _) as [[lo hi] tk]; cbn in *.
    eapply F32_le_trans; [exact H0 |].
    eapply F32_le_trans; [now apply llmin_le_l | exact Hord].
  - (* only the upper end scales: it moves up *)
    assert (N2 : not_nan (llmax (mMaxBar w) max)) by now apply llmax_not_nan.
    destruct (auto_scale_bounds _ _ Nlo N2) as (_ & H1 & _).
    unfold auto_scale in H1.
    destruct (calc_auto_scale_range _ _ _ _ _) as [[lo hi] tk]; cbn in *.
    eapply F32_le_trans; [| exact H1].
    eapply F32_le_trans; [exact Hord | now apply llmax_ge_l].
  - destruct (calc_auto_scale_range _ _ _ _ _) as [[lo hi] tk]; exact Hord.
Qed.

End WidgetRange.



(** C10: when [mAutoScaleMin] and [mAutoScaleMax] are both false, [drawTicks]
    leaves [mMinBar], [mMaxBar] and [mTickValue] (and every other field) as
    they were, for every [min], [max] and [value_scale]. *)
Theorem drawTicks_fixed_range
    (is_approx_equal : F32 -> F32 -> bool) (llceil_log10 : F32 -> S32)
    (pow10 : S32 -> F64) (w : LLStatBar) (min max value_scale : F32) :
  mAutoScaleMin w = false -> mAutoScaleMax w = false ->
  let w' := drawTicks is_approx_equal llceil_log10 pow10 w min max value_scale in
  mMinBar w' = mMinBar w /\ mMaxBar w' = mMaxBar w /\ mTickValue w' = mTickValue w /\
  w' = w.
Proof.
  intros Hmin Hmax; unfold drawTicks; rewrite Hmin, Hmax; cbn.
  repeat split; reflexivity.
Qed.

Lemma drawTicks_fixed_range_witness :
  let p :=
    mk_params "fps" "" (mk_optional (F32ops.of_Z 0) true) (mk_optional (F32ops.of_Z 60) true)
      (mk_optional f32_0 false) (mk_optional 3 false) (mk_optional true true)
      (mk_optional false false) (mk_optional true false) (mk_optional 200 false)
      (mk_optional 20 false) (mk_optional 100 false) "fps" (mk_optional VERTICAL false) in
  let w := new_LLStatBar ref_is_approx_equal ref_llceil_log10 ref_pow10 p in
  let w' := drawTicks ref_is_approx_equal ref_llceil_log10 ref_pow10 w
              (F32ops.of_Z (-500)) (F32ops.of_Z 900) f32_1 in
  (mAutoScaleMin w = false /\ mAutoScaleMax w = false) /\
  mMinBar w' = mMinBar w /\ mMaxBar w' = mMaxBar w /\ mTickValue w' = mTickValue w /\
  w' = w.
Proof.
  cbv zeta; split; [split; reflexivity |].
  apply drawTicks_fixed_range; reflexivity.
Defined.

(** ** The value string of drawLabelAndValue *)

Lemma string_length_append (s1 s2 : string) :
  String.length (s1 ++ s2) = (String.length s1 + String.length s2)%nat.
Proof. induction s1 as [| c s1 IH]; cbn; [reflexivity | now rewrite IH]. Qed.

Lemma spaces_length (n : nat) : String.length (spaces n) = n.
Proof. induction n as [| n IH]; cbn; [reflexivity | now rewrite IH]. Qed.

(** The format ["%10.*f %s"] gives at least eleven characters. *)
Lemma ref_llformat_width (decimal_digits : S32) (value : F32) (label : string) :
  (10 < String.length (ref_llformat decimal_digits value label))%nat.
Proof.
  unfold ref_llformat, pad_left.
  rewrite !string_length_append, spaces_length; cbn [String.length]; lia.
Qed.

(** C8: the string that [drawLabelAndValue] renders is the literal ["n/a"]
    exactly when the value is a NaN; a value that is not a NaN is formatted
    by [llformat], with no decimal digits or with [mDecimalDigits] of them.
    [llformat] is any function whose result has the width that the format
    ["%10.*f %s"] gives, more than ten characters. *)
Theorem value_str_na_iff_nan
    (is_approx_equal : F32 -> F32 -> bool) (llformat : S32 -> F32 -> string -> string)
    (w : LLStatBar) (value : F32) (label : string) :
  (forall d v l, (10 < String.length (llformat d v l))%nat) ->
  let value_str := drawLabelAndValue is_approx_equal llformat w value label in
  (value_str = "n/a"%string <-> llisnan value = true) /\
  (llisnan value = false ->
   value_str = llformat 0 value label \/
   value_str = llformat (mDecimalDigits w) value label).
Proof.
  intros Hwidth value_str; subst value_str; unfold drawLabelAndValue.
  destruct (llisnan value); cbn [negb]; split.
  - split; reflexivity.
  - discriminate.
  - split; [| discriminate].
    intros E; apply (f_equal String.length) in E.
    match type of E with
    | String.length (llformat ?d _ _) = _ => pose proof (Hwidth d value label) as H
    end.
    cbn in E; lia.
  - intros _; destruct (is_approx_equal _ _); [left | right]; reflexivity.
Qed.

Lemma value_str_na_iff_nan_witness :
  let w := new_LLStatBar ref_is_approx_equal ref_llceil_log10 ref_pow10 default_Params in
  let value := (F32ops.of_Z 1 / F32ops.of_Z 3)%f32 in
  let value_str := drawLabelAndValue ref_is_approx_equal ref_llformat w value "ms" in
  (forall d v l, (10 < String.length (ref_llformat d v l))%nat) /\
  (value_str = "n/a"%string <-> llisnan value = true) /\
  (llisnan value = false ->
   value_str = ref_llformat 0 value "ms" \/
   value_str = ref_llformat (mDecimalDigits w) value "ms").
Proof.
  cbv zeta; split; [exact ref_llformat_width |].
  apply (value_str_na_iff_nan ref_is_approx_equal ref_llformat); exact ref_llformat_width.
Defined.

(** ** The smoothing of the displayed bounds *)

Lemma lerp_between (a b : Q) : Qbetween a b (lerp a b BLEND_FACTOR).
Proof.
  unfold Qbetween, lerp, BLEND_FACTOR.
  destruct (Qlt_le_dec b a); [right | left]; split; lra.
Qed.

Lemma lerp_step (a b : Q) : (lerp a b BLEND_FACTOR - a == (b - a) * BLEND_FACTOR)%Q.
Proof. unfold lerp; ring. Qed.



(** ** The display state and the mouse *)

Lemma handleMouseDown_frame (w : LLStatBar) (handled : bool) :
  let w' := handleMouseDown w handled in
  mMinBar w' = mMinBar w /\ mMaxBar w' = mMaxBar w /\ mTickValue w' = mTickValue w /\
  mAutoScaleMin w' = mAutoScaleMin w /\ mAutoScaleMax w' = mAutoScaleMax w /\
  mCurMinBar w' = mCurMinBar w /\ mCurMaxBar w' = mCurMaxBar w /\
  mOrientation w' = mOrientation w /\ mMaxHeight w' = mMaxHeight w.
Proof.
  destruct w as [l u lo hi cM cm dd nh ns mh bar hist o aM am tk ld].
  unfold handleMouseDown, set_display; cbn.
  destruct handled, bar, hist, o; cbn; repeat split; reflexivity.
Qed.

(** X1: after a mouse click that the parent view did not handle, the history
    is shown only if the bar is shown; in the horizontal orientation the two
    flags are equal.  This holds from every state, also from one with the
    history flag set and the bar flag clear. *)
Theorem click_display_flags (w : LLStatBar) :
  let w' := handleMouseDown w false in
  (mDisplayHistory w' = true -> mDisplayBar w' = true) /\
  (mOrientation w = HORIZONTAL -> mDisplayHistory w' = mDisplayBar w') /\
  mDisplayBar w' = negb (mDisplayBar w && (mDisplayHistory w
                         || orientation_eqb (mOrientation w) HORIZONTAL)).
Proof.
  destruct w as [l u lo hi cM cm dd nh ns mh bar hist o aM am tk ld].
  unfold handleMouseDown, set_display; cbn.
  destruct bar, hist, o; cbn; repeat split; try reflexivity; intros; congruence.
Qed.

(** X2: the clicks cycle through the display states.  In the vertical
    orientation, from a state in which the history is shown only with the
    bar, three unhandled clicks lead back to the same widget and one or two
    do not; in the horizontal orientation, from a state in which the two
    flags are equal, two clicks lead back and one does not.  A click that
    the parent view handled changes nothing. *)
Theorem click_cycle (w : LLStatBar) :
  (mDisplayHistory w = true -> mDisplayBar w = true) ->
  let click w := handleMouseDown w false in
  (mOrientation w = VERTICAL ->
     click (click (click w)) = w /\ click w <> w /\ click (click w) <> w) /\
  (mOrientation w = HORIZONTAL -> mDisplayHistory w = mDisplayBar w ->
     click (click w) = w /\ click w <> w) /\
  handleMouseDown w true = w.
Proof.
  destruct w as [l u lo hi cM cm dd nh ns mh bar hist o aM am tk ld].
  unfold handleMouseDown, set_display; cbn.
  intros Hinv; split; [| split].
  - intros ->; destruct bar, hist; cbn; repeat split; try congruence;
      specialize (Hinv eq_refl); discriminate.
  - intros -> Heq; destruct bar, hist; cbn; repeat split; congruence.
  - reflexivity.
Qed.

Lemma click_cycle_witness :
  let w := new_LLStatBar ref_is_approx_equal ref_llceil_log10 ref_pow10 default_Params in
  let click w := handleMouseDown w false in
  (mDisplayHistory w = true -> mDisplayBar w = true) /\
  (mOrientation w = VERTICAL ->
     click (click (click w)) = w /\ click w <> w /\ click (click w) <> w).
Proof.
  cbv zeta.
  assert (H : mDisplayHistory
                (new_LLStatBar ref_is_approx_equal ref_llceil_log10 ref_pow10 default_Params)
              = true ->
              mDisplayBar
                (new_LLStatBar ref_is_approx_equal ref_llceil_log10 ref_pow10 default_Params)
              = true) by (cbn; discriminate).
  split; [exact H |].
  exact (proj1 (click_cycle _ H)).
Defined.

(** X3: the height that [getRequiredRect] asks for after an unhandled click,
    from every state.  In the vertical orientation it is 40 when neither the
    bar nor the history was shown, 14 when both were, and [mMaxHeight] when
    exactly one of the two flags was set; in the horizontal orientation it is
    [mMaxHeight] when the bar was hidden and 14 when it was shown, whatever
    the history flag.  The other three sides stay 0. *)
Theorem required_rect_after_click (w : LLStatBar) :
  let r := getRequiredRect (handleMouseDown w false) in
  mLeft r = 0 /\ mRight r = 0 /\ mBottom r = 0 /\
  (mOrientation w = VERTICAL ->
     mTop r =
       if mDisplayBar w
       then (if mDisplayHistory w then 14 else mMaxHeight w)
       else (if mDisplayHistory w then mMaxHeight w else 40)) /\
  (mOrientation w = HORIZONTAL ->
     mTop r = if mDisplayBar w then 14 else mMaxHeight w).
Proof.
  destruct w as [l u lo hi cM cm dd nh ns mh bar hist o aM am tk ld].
  unfold getRequiredRect, handleMouseDown, set_display; cbn.
  destruct bar, hist, o; cbn; repeat split; try reflexivity; discriminate.
Qed.

(** ** The bar range under sequences of events *)

Lemma ltb_asym (a b : F32) : F32ops.ltb a b = true -> F32ops.ltb b a = false.
Proof. intros H; apply le_ltb_false; now apply ltb_true_le. Qed.

Lemma llmin_llmax_fixed (a b : F32) :
  llmin (llmin a b) (llmax a b) = llmin a b /\
  llmax (llmin a b) (llmax a b) = llmax a b.
Proof.
  pose proof (ltb_asym a b) as Has.
  unfold llmin, llmax, F32ops.gtb, F32ops.ltb in *.
  destruct (SFltb a b) eqn:E1;
    [pose proof (Has eq_refl) as E2; rewrite E2 | destruct (SFltb b a) eqn:E2];
    rewrite ?E1, ?E2; try (split; reflexivity).
  split; destruct (SFltb b b); reflexivity.
Qed.

Section RangeUnderEvents.

Variable is_approx_equal : F32 -> F32 -> bool.
Variable llceil_log10 : F32 -> S32.
Variable pow10 : S32 -> F64.

Let run := run_events is_approx_equal llceil_log10 pow10.
Let step := apply_event is_approx_equal llceil_log10 pow10.

Lemma apply_event_flags (w : LLStatBar) (ev : frame_event) :
  mAutoScaleMin (step w ev) = mAutoScaleMin w /\
  mAutoScaleMax (step w ev) = mAutoScaleMax w.
Proof.
  destruct ev as [min max value_scale | handled]; cbn.
  - unfold drawTicks.
    destruct (_ || _); [| split; reflexivity].
    destruct (calc_auto_scale_range _ _ _ _ _) as [[lo hi] tk].
    destruct (mAutoScaleMin w) eqn:E1, (mAutoScaleMax w) eqn:E2;
      cbn [andb mAutoScaleMin mAutoScaleMax set_mTickValue set_mMaxBar set_mMinBar];
      rewrite ?E1, ?E2; split; reflexivity.
  - destruct (handleMouseDown_frame w handled) as (_ & _ & _ & H1 & H2 & _).
    split; assumption.
Qed.

Lemma apply_event_fixed (w : LLStatBar) (ev : frame_event) :
  mAutoScaleMin w = false -> mAutoScaleMax w = false ->
  mMinBar (step w ev) = mMinBar w /\ mMaxBar (step w ev) = mMaxBar w /\
  mTickValue (step w ev) = mTickValue w.
Proof.
  intros Hmin Hmax; destruct ev as [min max value_scale | handled]; cbn.
  - unfold drawTicks; rewrite Hmin, Hmax; cbn; repeat split; reflexivity.
  - destruct (handleMouseDown_frame w handled) as (H1 & H2 & H3 & _).
    repeat split; assumption.
Qed.

Lemma run_events_fixed (evs : list frame_event) (w : LLStatBar) :
  mAutoScaleMin w = false -> mAutoScaleMax w = false ->
  mMinBar (run w evs) = mMinBar w /\ mMaxBar (run w evs) = mMaxBar w /\
  mTickValue (run w evs) = mTickValue w.
Proof.
  revert w; induction evs as [| ev evs IH]; intros w Hmin Hmax.
  - repeat split; reflexivity.
  - destruct (apply_event_flags w ev) as [F1 F2].
    destruct (apply_event_fixed w ev Hmin Hmax) as (E1 & E2 & E3).
    destruct (IH (step w ev)) as (I1 & I2 & I3); [congruence | congruence |].
    unfold run, run_events in *; cbn [fold_left]; fold (step w ev).
    repeat split; congruence.
Qed.

End RangeUnderEvents.

(** X4: a bar constructed with both [bar_min] and [bar_max] provided keeps
    the range and the tick value of its construction through every sequence
    of frames and mouse clicks: the range is the two parameters in order, the
    tick value is [tick_spacing] when that was provided and the computed
    [calc_tick_value] of the range when not. *)
Theorem provided_range_is_kept
    (is_approx_equal : F32 -> F32 -> bool) (llceil_log10 : F32 -> S32)
    (pow10 : S32 -> F64) (p : Params) (evs : list frame_event) :
  isProvided (bar_min p) = true -> isProvided (bar_max p) = true ->
  let lo := llmin (getValue (bar_min p)) (getValue (bar_max p)) in
  let hi := llmax (getValue (bar_max p)) (getValue (bar_min p)) in
  let w := run_events is_approx_equal llceil_log10 pow10
             (new_LLStatBar is_approx_equal llceil_log10 pow10 p) evs in
  mMinBar w = lo /\ mMaxBar w = hi /\
  mTickValue w =
    (if isProvided (tick_spacing p) then getValue (tick_spacing p)
     else calc_tick_value is_approx_equal llceil_log10 pow10 lo hi).
Proof.
  intros Pmin Pmax lo hi w.
  set (w0 := new_LLStatBar is_approx_equal llceil_log10 pow10 p) in *.
  assert (Amin : mAutoScaleMin w0 = false).
  { subst w0; unfold new_LLStatBar; destruct (_ && _); cbn; now rewrite Pmin. }
  assert (Amax : mAutoScaleMax w0 = false).
  { subst w0; unfold new_LLStatBar; destruct (_ && _); cbn; now rewrite Pmax. }
  destruct (run_events_fixed is_approx_equal llceil_log10 pow10 evs w0 Amin Amax)
    as (E1 & E2 & E3).
  subst w; rewrite E1, E2, E3.
  subst w0 lo hi; unfold new_LLStatBar; rewrite Pmin, Pmax.
  destruct (isProvided (tick_spacing p)); cbn; repeat split; reflexivity.
Qed.

Lemma provided_range_is_kept_witness :
  let p :=
    mk_params "fps" "" (mk_optional (F32ops.of_Z 60) true) (mk_optional (F32ops.of_Z 0) true)
      (mk_optional f32_0 false) (mk_optional 3 false) (mk_optional true true)
      (mk_optional false false) (mk_optional true false) (mk_optional 200 false)
      (mk_optional 20 false) (mk_optional 100 false) "fps" (mk_optional VERTICAL false) in
  let evs := [Draw (F32ops.of_Z (-500)) (F32ops.of_Z 900) f32_1; Click false;
              Draw (F32ops.of_Z 2) (F32ops.of_Z 3) f32_1] in
  let lo := llmin (getValue (bar_min p)) (getValue (bar_max p)) in
  let hi := llmax (getValue (bar_max p)) (getValue (bar_min p)) in
  let w := run_events ref_is_approx_equal ref_llceil_log10 ref_pow10
             (new_LLStatBar ref_is_approx_equal ref_llceil_log10 ref_pow10 p) evs in
  (isProvided (bar_min p) = true /\ isProvided (bar_max p) = true) /\
  mMinBar w = lo /\ mMaxBar w = hi /\
  mTickValue w =
    (if isProvided (tick_spacing p) then getValue (tick_spacing p)
     else calc_tick_value ref_is_approx_equal ref_llceil_log10 ref_pow10 lo hi).
Proof.
  intros p evs lo hi w.
  split; [split; reflexivity |].
  exact (provided_range_is_kept ref_is_approx_equal ref_llceil_log10 ref_pow10
           p evs eq_refl eq_refl).
Defined.

(** X5: [setRange] is idempotent on what it stores: setting the range again
    to the stored [mMinBar] and [mMaxBar] changes nothing.  This holds for
    all arguments, in either order, NaN included. *)
Theorem setRange_stored_range
    (is_approx_equal : F32 -> F32 -> bool) (llceil_log10 : F32 -> S32)
    (pow10 : S32 -> F64) (w : LLStatBar) (a b : F32) :
  let w' := setRange is_approx_equal llceil_log10 pow10 w a b in
  setRange is_approx_equal llceil_log10 pow10 w' (mMinBar w') (mMaxBar w') = w'.
Proof.
  destruct (llmin_llmax_fixed a b) as [E1 E2].
  unfold setRange.
  cbn [mMinBar mMaxBar set_mTickValue set_mMaxBar set_mMinBar].
  rewrite E1, E2; reflexivity.
Qed.

(** X6: for [a < b], [setRange] stores [a] and [b] whichever way round they
    are passed, and the constructor stores the same range from parameters
    given either way round. *)
Theorem setRange_argument_order
    (is_approx_equal : F32 -> F32 -> bool) (llceil_log10 : F32 -> S32)
    (pow10 : S32 -> F64) (w : LLStatBar) (p : Params) (a b : F32) :
  F32ops.ltb a b = true ->
  (getValue (bar_min p) = a /\ getValue (bar_max p) = b) \/
  (getValue (bar_min p) = b /\ getValue (bar_max p) = a) ->
  let w1 := setRange is_approx_equal llceil_log10 pow10 w a b in
  let w2 := setRange is_approx_equal llceil_log10 pow10 w b a in
  let w0 := new_LLStatBar is_approx_equal llceil_log10 pow10 p in
  w1 = w2 /\ mMinBar w1 = a /\ mMaxBar w1 = b /\ mMinBar w0 = a /\ mMaxBar w0 = b.
Proof.
  intros Hlt Hp.
  pose proof (ltb_asym _ _ Hlt) as Hgt.
  assert (Emin : llmin a b = a) by (unfold llmin; now rewrite Hlt).
  assert (Emin' : llmin b a = a) by (unfold llmin; now rewrite Hgt).
  assert (Emax : llmax a b = b) by (unfold llmax, F32ops.gtb, F32ops.ltb in *; now rewrite Hgt).
  assert (Emax' : llmax b a = b) by (unfold llmax, F32ops.gtb, F32ops.ltb in *; now rewrite Hlt).
  cbv zeta.
  destruct (new_LLStatBar_range is_approx_equal llceil_log10 pow10 p) as [N1 N2].
  rewrite N1, N2.
  unfold setRange.
  cbn [mMinBar mMaxBar set_mTickValue set_mMaxBar set_mMinBar].
  rewrite Emin, Emin', Emax, Emax'.
  repeat split; destruct Hp as [[-> ->] | [-> ->]]; assumption.
Qed.

Lemma setRange_argument_order_witness :
  let p :=
    mk_params "fps" "" (mk_optional (F32ops.of_Z 60) true) (mk_optional (F32ops.of_Z 0) true)
      (mk_optional f32_0 false) (mk_optional 3 false) (mk_optional true true)
      (mk_optional false false) (mk_optional true false) (mk_optional 200 false)
      (mk_optional 20 false) (mk_optional 100 false) "fps" (mk_optional VERTICAL false) in
  let a := F32ops.of_Z 0 in
  let b := F32ops.of_Z 60 in
  let w := new_LLStatBar ref_is_approx_equal ref_llceil_log10 ref_pow10 default_Params in
  let w1 := setRange ref_is_approx_equal ref_llceil_log10 ref_pow10 w a b in
  let w2 := setRange ref_is_approx_equal ref_llceil_log10 ref_pow10 w b a in
  let w0 := new_LLStatBar ref_is_approx_equal ref_llceil_log10 ref_pow10 p in
  (F32ops.ltb a b = true /\
   ((getValue (bar_min p) = a /\ getValue (bar_max p) = b) \/
    (getValue (bar_min p) = b /\ getValue (bar_max p) = a))) /\
  (w1 = w2 /\ mMinBar w1 = a /\ mMaxBar w1 = b /\ mMinBar w0 = a /\ mMaxBar w0 = b).
Proof.
  intros p a b w w1 w2 w0.
  assert (Hlt : F32ops.ltb a b = true) by reflexivity.
  assert (Hp : (getValue (bar_min p) = a /\ getValue (bar_max p) = b) \/
               (getValue (bar_min p) = b /\ getValue (bar_max p) = a))
    by (right; split; reflexivity).
  split; [split; [exact Hlt | exact Hp] |].
  exact (setRange_argument_order ref_is_approx_equal ref_llceil_log10 ref_pow10
           w p a b Hlt Hp).
Defined.

(** ** The auto-scale update never shrinks the range *)

Section AutoScaleGrowth.

Variable is_approx_equal : F32 -> F32 -> bool.
Variable llceil_log10 : F32 -> S32.
Variable pow10 : S32 -> F64.

Lemma drawTicks_grows (w : LLStatBar) (min max value_scale : F32) :
  not_nan (mMinBar w) -> not_nan (mMaxBar w) -> not_nan min -> not_nan max ->
  let w' := drawTicks is_approx_equal llceil_log10 pow10 w min max value_scale in
  F32_le (mMinBar w') (mMinBar w) /\ F32_le (mMaxBar w) (mMaxBar w').
Proof.
  intros Nlo Nhi Nmin Nmax.
  pose proof (F32_le_refl _ Nlo) as Rlo.
  pose proof (F32_le_refl _ Nhi) as Rhi.
  unfold drawTicks.
  destruct (_ || _); [| split; assumption].
  assert (N1 : not_nan (llmin (mMinBar w) min)) by now apply llmin_not_nan.
  assert (N2 : not_nan (llmax (mMaxBar w) max)) by now apply llmax_not_nan.
  assert (L1 : F32_le (llmin (mMinBar w) min) (mMinBar w)) by now apply llmin_le_l.
  assert (L2 : F32_le (mMaxBar w) (llmax (mMaxBar w) max)) by now apply llmax_ge_l.
  destruct (mAutoScaleMin w) eqn:Amin, (mAutoScaleMax w) eqn:Amax; cbn [andb].
  - destruct (auto_scale_bounds is_approx_equal llceil_log10 pow10 _ _ N1 N2)
      as (H0 & H1 & _).
    destruct (calc_auto_scale_range _ _ _ _ _) as [[lo hi] tk]; cbn in *.
    split; eapply F32_le_trans; eassumption.
  - destruct (auto_scale_bounds is_approx_equal llceil_log10 pow10 _ _ N1 Nhi)
      as (H0 & _).
    destruct (calc_auto_scale_range _ _ _ _ _) as [[lo hi] tk]; cbn in *.
    split; [eapply F32_le_trans; eassumption | assumption].
  - destruct (auto_scale_bounds is_approx_equal llceil_log10 pow10 _ _ Nlo N2)
      as (_ & H1 & _).
    destruct (calc_auto_scale_range _ _ _ _ _) as [[lo hi] tk]; cbn in *.
    split; [assumption | eapply F32_le_trans; eassumption].
  - destruct (calc_auto_scale_range _ _ _ _ _) as [[lo hi] tk]; cbn.
    split; assumption.
Qed.

Lemma apply_event_grows (w : LLStatBar) (ev : frame_event) :
  not_nan (mMinBar w) -> not_nan (mMaxBar w) ->
  match ev with Draw min max _ => not_nan min /\ not_nan max | Click _ => True end ->
  let w' := apply_event is_approx_equal llceil_log10 pow10 w ev in
  F32_le (mMinBar w') (mMinBar w) /\ F32_le (mMaxBar w) (mMaxBar w').
Proof.
  intros Nlo Nhi Hev; destruct ev as [min max value_scale | handled]; cbn.
  - destruct Hev; now apply drawTicks_grows.
  - destruct (handleMouseDown_frame w handled) as (E1 & E2 & _).
    rewrite E1, E2; split; now apply F32_le_refl.
Qed.

End AutoScaleGrowth.

(** X7: the bar range only widens.  Through every sequence of frames and
    mouse clicks, on a range and observed bounds that are numbers, the final
    [mMinBar] is at most the initial one and the final [mMaxBar] at least the
    initial one, whichever of the two ends scale. *)
Theorem range_never_shrinks
    (is_approx_equal : F32 -> F32 -> bool) (llceil_log10 : F32 -> S32)
    (pow10 : S32 -> F64) (w : LLStatBar) (evs : list frame_event) :
  not_nan (mMinBar w) -> not_nan (mMaxBar w) -> Forall event_is_numeric evs ->
  let w' := run_events is_approx_equal llceil_log10 pow10 w evs in
  F32_le (mMinBar w') (mMinBar w) /\ F32_le (mMaxBar w) (mMaxBar w').
Proof.
  revert w; induction evs as [| ev evs IH]; intros w Nlo Nhi Hevs.
  - split; now apply F32_le_refl.
  - inversion Hevs as [| ev' evs' Hev Hrest]; subst.
    destruct (apply_event_grows is_approx_equal llceil_log10 pow10 w ev Nlo Nhi Hev)
      as [G1 G2].
    destruct (F32_le_not_nan _ _ G1) as [N1 _].
    destruct (F32_le_not_nan _ _ G2) as [_ N2].
    destruct (IH _ N1 N2 Hrest) as [I1 I2].
    unfold run_events in *; cbn [fold_left].
    split; eapply F32_le_trans; eassumption.
Qed.

Lemma range_never_shrinks_witness :
  let w := new_LLStatBar ref_is_approx_equal ref_llceil_log10 ref_pow10 default_Params in
  let evs := [Draw (F32ops.of_Z (-3)) (F32ops.of_Z 42) f32_1; Click false;
              Draw (F32ops.of_Z 2) (F32ops.of_Z 300) f32_1] in
  let w' := run_events ref_is_approx_equal ref_llceil_log10 ref_pow10 w evs in
  (not_nan (mMinBar w) /\ not_nan (mMaxBar w) /\ Forall event_is_numeric evs) /\
  (F32_le (mMinBar w') (mMinBar w) /\ F32_le (mMaxBar w) (mMaxBar w')).
Proof.
  intros w evs w'.
  assert (Hevs : Forall event_is_numeric evs)
    by (repeat constructor).
  split; [repeat split; exact Hevs |].
  exact (range_never_shrinks ref_is_approx_equal ref_llceil_log10 ref_pow10
           w evs eq_refl eq_refl Hevs).
Defined.

(** X8: when the update of [drawTicks] fires, an end that scales covers the
    observed bound: with [mAutoScaleMin] the new [mMinBar] is at most [min],
    with [mAutoScaleMax] the new [mMaxBar] is at least [max]. *)
Theorem drawTicks_covers_observed
    (is_approx_equal : F32 -> F32 -> bool) (llceil_log10 : F32 -> S32)
    (pow10 : S32 -> F64) (w : LLStatBar) (min max value_scale : F32) :
  not_nan (mMinBar w) -> not_nan (mMaxBar w) -> not_nan min -> not_nan max ->
  (mAutoScaleMax w && (max >=? mCurMaxBar w)%f32)
    || (mAutoScaleMin w && (min <=? mCurMinBar w)%f32) = true ->
  let w' := drawTicks is_approx_equal llceil_log10 pow10 w min max value_scale in
  (mAutoScaleMin w = true -> F32_le (mMinBar w') min) /\
  (mAutoScaleMax w = true -> F32_le max (mMaxBar w')).
Proof.
  intros Nlo Nhi Nmin Nmax Hfire.
  unfold drawTicks; rewrite Hfire.
  assert (N1 : not_nan (llmin (mMinBar w) min)) by now apply llmin_not_nan.
  assert (N2 : not_nan (llmax (mMaxBar w) max)) by now apply llmax_not_nan.
  assert (L1 : F32_le (llmin (mMinBar w) min) min) by now apply llmin_le_r.
  assert (L2 : F32_le max (llmax (mMaxBar w) max)) by now apply llmax_ge_r.
  destruct (mAutoScaleMin w) eqn:Amin, (mAutoScaleMax w) eqn:Amax; cbn [andb].
  - destruct (auto_scale_bounds is_approx_equal llceil_log10 pow10 _ _ N1 N2)
      as (H0 & H1 & _).
    destruct (calc_auto_scale_range _ _ _ _ _) as [[lo hi] tk]; cbn in *.
    split; intros _; eapply F32_le_trans; eassumption.
  - destruct (auto_scale_bounds is_approx_equal llceil_log10 pow10 _ _ N1 Nhi)
      as (H0 & _).
    destruct (calc_auto_scale_range _ _ _ _ _) as [[lo hi] tk]; cbn in *.
    split; [intros _; eapply F32_le_trans; eassumption | discriminate].
  - destruct (auto_scale_bounds is_approx_equal llceil_log10 pow10 _ _ Nlo N2)
      as (_ & H1 & _).
    destruct (calc_auto_scale_range _ _ _ _ _) as [[lo hi] tk]; cbn in *.
    split; [discriminate | intros _; eapply F32_le_trans; eassumption].
  - destruct (calc_auto_scale_range _ _ _ _ _) as [[lo hi] tk]; cbn.
    split; discriminate.
Qed.

Lemma drawTicks_covers_observed_witness :
  let w := new_LLStatBar ref_is_approx_equal ref_llceil_log10 ref_pow10 default_Params in
  let min := F32ops.of_Z (-3) in
  let max := F32ops.of_Z 42 in
  let w' := drawTicks ref_is_approx_equal ref_llceil_log10 ref_pow10 w min max f32_1 in
  (not_nan (mMinBar w) /\ not_nan (mMaxBar w) /\ not_nan min /\ not_nan max /\
   (mAutoScaleMax w && (max >=? mCurMaxBar w)%f32)
     || (mAutoScaleMin w && (min <=? mCurMinBar w)%f32) = true) /\
  ((mAutoScaleMin w = true -> F32_le (mMinBar w') min) /\
   (mAutoScaleMax w = true -> F32_le max (mMaxBar w'))).
Proof.
  intros w min max w'.
  split; [repeat split |].
  exact (drawTicks_covers_observed ref_is_approx_equal ref_llceil_log10 ref_pow10
           w min max f32_1 eq_refl eq_refl eq_refl eq_refl eq_refl).
Defined.

(** ** The bar rectangle of draw *)

Lemma S32_wrap_id (z : Z) : S32_range z -> S32_wrap z = z.
Proof.
  unfold S32_range, S32_MIN, S32_MAX, S32_wrap; intros H.
  rewrite Z.mod_small; lia.
Qed.

Lemma S32_wrap_range (z : Z) : S32_range (S32_wrap z).
Proof.
  unfold S32_range, S32_MIN, S32_MAX, S32_wrap.
  pose proof (Z.mod_pos_bound (z + 2147483648) 4294967296 eq_refl); lia.
Qed.

(** X9: the bar rectangle that [draw] computes is never flat, whatever the
    widget's own rectangle, wrap-around of its 32-bit height included: its
    top is at least 5 and its bottom at least 5 below the top.  In the
    horizontal orientation the bottom is exactly 0, so the [llmin] there never
    selects its first argument; in the vertical orientation the bottom is
    between 0 and 20. *)
Theorem bar_rect_not_flat (orientation : EOrientation) (rect : LLRect) :
  let r := bar_rect orientation rect in
  5 <= mTop r <= S32_MAX /\
  mBottom r <= mTop r - 5 /\
  getHeight r = mTop r - mBottom r /\
  5 <= getHeight r /\
  mLeft r = 0 /\
  match orientation with
  | HORIZONTAL => mBottom r = 0
  | VERTICAL => 0 <= mBottom r <= 20
  end.
Proof.
  cbv zeta.
  pose proof (S32_wrap_range (getHeight rect - 15)) as Hr.
  assert (Htop : 5 <= llmaxS 5 (S32_wrap (getHeight rect - 15)) <= S32_MAX).
  { unfold llmaxS, S32_range, S32_MAX in *.
    destruct (Z.gtb_spec 5 (S32_wrap (getHeight rect - 15))); lia. }
  set (top := llmaxS 5 (S32_wrap (getHeight rect - 15))) in *.
  assert (Hw : S32_wrap (top - 5) = top - 5)
    by (apply S32_wrap_id; unfold S32_range, S32_MIN, S32_MAX in *; lia).
  destruct orientation; unfold bar_rect; fold top; unfold getHeight;
    cbn [mTop mBottom mLeft]; rewrite Hw; unfold llminS.
  - destruct (Z.ltb_spec (top - 5) 0); [lia |].
    rewrite S32_wrap_id by (unfold S32_range, S32_MIN, S32_MAX in *; lia).
    repeat split; lia.
  - destruct (Z.ltb_spec (top - 5) 20);
      rewrite S32_wrap_id by (unfold S32_range, S32_MIN, S32_MAX in *; lia);
      repeat split; lia.
Qed.

(** ** calc_num_rapid_changes *)

Section RapidChanges.

Variable value_of : Recording -> F64.
Variable periodic_recording : PeriodicRecording.
Variable time_period : F32.

(** [time_since_value_changed] is only ever assigned zero. *)
Lemma rapid_body_time_since (threshold : F32) (recording : Recording) (st : rapid_state) :
  time_since_value_changed st = f32_0 ->
  time_since_value_changed (rapid_body value_of threshold recording st) = f32_0.
Proof.
  intros H; unfold rapid_body; destruct (negb _); cbn; [reflexivity | exact H].
Qed.

Lemma rapid_body_threshold (t1 t2 : F32) (recording : Recording) (st : rapid_state) :
  F32ops.ltb f32_0 t1 = true -> F32ops.ltb f32_0 t2 = true ->
  time_since_value_changed st = f32_0 ->
  rapid_body value_of t1 recording st = rapid_body value_of t2 recording st.
Proof.
  intros H1 H2 H0; unfold rapid_body; rewrite H0, H1, H2; reflexivity.
Qed.

Lemma rapid_loop_threshold (t1 t2 : F32) (steps : nat) (i : S32) (st : rapid_state) :
  F32ops.ltb f32_0 t1 = true -> F32ops.ltb f32_0 t2 = true ->
  time_since_value_changed st = f32_0 ->
  rapid_loop value_of t1 periodic_recording time_period steps i st =
  rapid_loop value_of t2 periodic_recording time_period steps i st.
Proof.
  intros H1 H2; revert i st; induction steps as [| n IH]; intros i st H0; cbn [rapid_loop].
  - reflexivity.
  - rewrite (rapid_body_threshold t1 t2 _ st H1 H2 H0).
    destruct (_ >? _)%f32; [reflexivity |].
    apply IH; now apply rapid_body_time_since.
Qed.

(** The count grows by at most one per iteration, and by one exactly when
    the value changed. *)
Lemma rapid_body_count (threshold : F32) (recording : Recording) (st : rapid_state) :
  F32ops.ltb f32_0 threshold = true ->
  time_since_value_changed st = f32_0 ->
  S32_range (num_rapid_changes st + 1) ->
  num_rapid_changes (rapid_body value_of threshold recording st) =
    num_rapid_changes st
    + (if SFeqb (last_value st) (value_of recording) then 0 else 1).
Proof.
  intros Ht H0 Hr; unfold rapid_body; rewrite H0, Ht.
  destruct (SFeqb _ _); cbn; [lia |].
  now rewrite S32_wrap_id.
Qed.

Lemma rapid_loop_bounds (threshold : F32) (steps : nat) (i : S32) (st : rapid_state) :
  F32ops.ltb f32_0 threshold = true ->
  time_since_value_changed st = f32_0 ->
  0 <= num_rapid_changes st ->
  num_rapid_changes st + Z.of_nat steps <= S32_MAX ->
  let st' := rapid_loop value_of threshold periodic_recording time_period steps i st in
  num_rapid_changes st <= num_rapid_changes st' <= num_rapid_changes st + Z.of_nat steps.
Proof.
  intros Ht; revert i st; induction steps as [| n IH]; intros i st H0 Hlo Hhi;
    cbn [rapid_loop].
  - cbn; lia.
  - assert (Hr : S32_range (num_rapid_changes st + 1))
      by (unfold S32_range, S32_MIN, S32_MAX in *; lia).
    pose proof (rapid_body_count threshold (getPrevRecording periodic_recording i) st
                  Ht H0 Hr) as Hc.
    pose proof (rapid_body_time_since threshold (getPrevRecording periodic_recording i) st H0)
      as H0'.
    set (st1 := rapid_body _ _ _ st) in *.
    assert (Hstep : num_rapid_changes st <= num_rapid_changes st1 <= num_rapid_changes st + 1)
      by (destruct (SFeqb _ _); lia).
    cbv zeta; destruct (_ >? _)%f32; [lia |].
    specialize (IH (i + 1) st1 H0').
    cbv zeta in IH; lia.
Qed.

End RapidChanges.

(** X10: in [calc_num_rapid_changes] the threshold plays no part.
    [time_since_value_changed] is only ever assigned zero, so the test
    against [RAPID_CHANGE_THRESHOLD] holds at every change of value: both
    overloads return what they would return with any other positive
    threshold, plus infinity included, that is, the number of value changes
    among the recordings scanned. *)
Theorem rapid_change_threshold_unused
    (periodic_recording : PeriodicRecording) (time_period threshold : F32) :
  F32ops.ltb f32_0 threshold = true ->
  calc_num_rapid_changes periodic_recording time_period =
    num_rapid_changes
      (rapid_loop getLastValue threshold periodic_recording time_period
         (Z.to_nat (getNumRecordedPeriods periodic_recording - 2)) 2
         (mk_rapid (getLastValue (getPrevRecording periodic_recording 1)) f32_0 f32_0 0)) /\
  calc_num_rapid_changes_count periodic_recording time_period =
    num_rapid_changes
      (rapid_loop getSum threshold periodic_recording time_period
         (Z.to_nat (getNumRecordedPeriods periodic_recording - 1)) 1
         (mk_rapid (getSum (getPrevRecording periodic_recording 1)) f32_0 f32_0 0)).
Proof.
  intros Ht; unfold calc_num_rapid_changes, calc_num_rapid_changes_count.
  split; f_equal; apply rapid_loop_threshold; auto; reflexivity.
Qed.

Lemma rapid_change_threshold_unused_witness :
  let recording (i : S32) :=
    mk_recording (F32ops.of_Z (i mod 2)) (F32ops.of_Z i) (F32ops.of_Z 1 / F32ops.of_Z 4)%f32 in
  let periodic_recording := mk_periodic 8 recording in
  let threshold := S754_infinity false in
  F32ops.ltb f32_0 threshold = true /\
  calc_num_rapid_changes periodic_recording f32_1 =
    num_rapid_changes
      (rapid_loop getLastValue threshold periodic_recording f32_1
         (Z.to_nat (getNumRecordedPeriods periodic_recording - 2)) 2
         (mk_rapid (getLastValue (getPrevRecording periodic_recording 1)) f32_0 f32_0 0)).
Proof.
  intros recording periodic_recording threshold.
  split; [reflexivity |].
  exact (proj1 (rapid_change_threshold_unused periodic_recording f32_1 threshold eq_refl)).
Defined.

(** X11: the result of [calc_num_rapid_changes] is between 0 and the number
    of recordings the loop can visit: [getNumRecordedPeriods() - 2] for the
    template, [getNumRecordedPeriods() - 1] for the count overload (none when
    that is negative). *)
Theorem rapid_changes_bounds (periodic_recording : PeriodicRecording) (time_period : F32) :
  S32_range (getNumRecordedPeriods periodic_recording) ->
  let n := getNumRecordedPeriods periodic_recording in
  0 <= calc_num_rapid_changes periodic_recording time_period <= Z.max 0 (n - 2) /\
  0 <= calc_num_rapid_changes_count periodic_recording time_period <= Z.max 0 (n - 1).
Proof.
  intros Hn n; unfold calc_num_rapid_changes, calc_num_rapid_changes_count.
  unfold S32_range, S32_MIN, S32_MAX in Hn; fold n in Hn |- *.
  split.
  - pose proof (rapid_loop_bounds getLastValue periodic_recording time_period
                  RAPID_CHANGE_THRESHOLD_local (Z.to_nat (n - 2)) 2
                  (mk_rapid (getLastValue (getPrevRecording periodic_recording 1))
                     f32_0 f32_0 0) eq_refl eq_refl) as H.
    cbn [num_rapid_changes] in H; cbv zeta in H.
    unfold S32_MAX in H; specialize (H ltac:(lia) ltac:(lia)); lia.
  - pose proof (rapid_loop_bounds getSum periodic_recording time_period
                  RAPID_CHANGE_THRESHOLD (Z.to_nat (n - 1)) 1
                  (mk_rapid (getSum (getPrevRecording periodic_recording 1))
                     f32_0 f32_0 0) eq_refl eq_refl) as H.
    cbn [num_rapid_changes] in H; cbv zeta in H.
    unfold S32_MAX in H; specialize (H ltac:(lia) ltac:(lia)); lia.
Qed.

Lemma rapid_changes_bounds_witness :
  let recording (i : S32) :=
    mk_recording (F32ops.of_Z (i mod 2)) (F32ops.of_Z i) (F32ops.of_Z 1 / F32ops.of_Z 4)%f32 in
  let periodic_recording := mk_periodic 8 recording in
  let n := getNumRecordedPeriods periodic_recording in
  S32_range (getNumRecordedPeriods periodic_recording) /\
  (0 <= calc_num_rapid_changes periodic_recording f32_1 <= Z.max 0 (n - 2) /\
   0 <= calc_num_rapid_changes_count periodic_recording f32_1 <= Z.max 0 (n - 1)).
Proof.
  intros recording periodic_recording n.
  assert (Hn : S32_range (getNumRecordedPeriods periodic_recording))
    by (unfold S32_range, S32_MIN, S32_MAX; cbn; lia).
  split; [exact Hn |].
  exact (rapid_changes_bounds periodic_recording f32_1 Hn).
Defined.

(** X12: the count overload starts its loop at the recording whose sum it has
    just read into [last_value], so its first iteration compares that sum with
    itself.  When the sum is a number this iteration counts nothing and the
    result is at most [getNumRecordedPeriods() - 2]; when the sum is a NaN,
    which differs from itself, the iteration counts a change and the result is
    at least 1. *)
Theorem rapid_changes_count_first_iteration
    (periodic_recording : PeriodicRecording) (time_period : F32) :
  2 <= getNumRecordedPeriods periodic_recording <= S32_MAX ->
  let n := getNumRecordedPeriods periodic_recording in
  let first_sum := getSum (getPrevRecording periodic_recording 1) in
  let result := calc_num_rapid_changes_count periodic_recording time_period in
  (SFeqb first_sum first_sum = true -> 0 <= result <= n - 2) /\
  (SFeqb first_sum first_sum = false -> 1 <= result <= n - 1).
Proof.
  intros Hn n first_sum result; fold n in Hn; unfold S32_MAX in Hn.
  subst result; unfold calc_num_rapid_changes_count; fold n; fold first_sum.
  destruct (Z.to_nat (n - 1)) as [| k] eqn:Ek; [lia |].
  cbn [rapid_loop].
  set (st0 := mk_rapid first_sum f32_0 f32_0 0).
  pose proof (rapid_body_count getSum RAPID_CHANGE_THRESHOLD
                (getPrevRecording periodic_recording 1) st0 eq_refl eq_refl) as Hc.
  pose proof (rapid_body_time_since getSum RAPID_CHANGE_THRESHOLD
                (getPrevRecording periodic_recording 1) st0 eq_refl) as H0.
  set (st1 := rapid_body _ _ _ st0) in *.
  cbn [num_rapid_changes last_value st0] in Hc; fold first_sum in Hc.
  specialize (Hc ltac:(unfold S32_range, S32_MIN, S32_MAX; lia)).
  pose proof (rapid_loop_bounds getSum periodic_recording time_period
                RAPID_CHANGE_THRESHOLD k (1 + 1) st1 eq_refl H0) as Hb.
  cbv zeta in Hb; unfold S32_MAX in Hb.
  split; intros E; rewrite E in Hc;
    (destruct (_ >? _)%f32; [lia | specialize (Hb ltac:(lia) ltac:(lia)); lia]).
Qed.

Lemma rapid_changes_count_first_iteration_witness :
  let recording (i : S32) :=
    mk_recording (F32ops.of_Z (i mod 2)) (F32ops.of_Z i) (F32ops.of_Z 1 / F32ops.of_Z 4)%f32 in
  let periodic_recording := mk_periodic 8 recording in
  let n := getNumRecordedPeriods periodic_recording in
  let first_sum := getSum (getPrevRecording periodic_recording 1) in
  let result := calc_num_rapid_changes_count periodic_recording f32_1 in
  2 <= getNumRecordedPeriods periodic_recording <= S32_MAX /\
  ((SFeqb first_sum first_sum = true -> 0 <= result <= n - 2) /\
   (SFeqb first_sum first_sum = false -> 1 <= result <= n - 1)).
Proof.
  intros recording periodic_recording n first_sum result.
  assert (Hn : 2 <= getNumRecordedPeriods periodic_recording <= S32_MAX)
    by (unfold S32_MAX; cbn; lia).
  split; [exact Hn |].
  exact (rapid_changes_count_first_iteration periodic_recording f32_1 Hn).
Defined.

(** ** The collision record *)

Lemma c_str_repeat_NUL (n : nat) : c_str (repeat NUL n) = [].
Proof. destruct n; reflexivity. Qed.

Lemma c_str_strncpy (src : list ascii) (n : nat) :
  c_str (strncpy src n ++ [NUL]) = firstn n (c_str src).
Proof.
  revert src; induction n as [| n IH]; intros src.
  - reflexivity.
  - destruct src as [| c src].
    + cbn [strncpy c_str firstn].
      change (repeat NUL (S n) ++ [NUL]) with (NUL :: (repeat NUL n ++ [NUL])).
      reflexivity.
    + cbn [strncpy c_str].
      destruct (is_NUL c) eqn:E.
      * change (repeat NUL (S n) ++ [NUL]) with (NUL :: (repeat NUL n ++ [NUL])).
        reflexivity.
      * cbn [app c_str firstn]; rewrite E, IH; reflexivity.
Qed.

Lemma strncpy_length (src : list ascii) (n : nat) : length (strncpy src n) = n.
Proof.
  revert src; induction n as [| n IH]; intros src; [reflexivity |].
  destruct src as [| c src]; cbn [strncpy].
  - apply repeat_length.
  - destruct (is_NUL c); [apply repeat_length | cbn; now rewrite IH].
Qed.

Lemma c_str_length (chars : list ascii) :
  In NUL chars -> (length (c_str chars) < length chars)%nat.
Proof.
  induction chars as [| c chars IH]; cbn; [tauto |].
  intros [-> | Hin]; [cbn; lia |].
  destruct (is_NUL c); cbn; [lia | specialize (IH Hin); lia].
Qed.

Lemma c_str_no_NUL (chars : list ascii) : ~ In NUL (c_str chars).
Proof.
  induction chars as [| c chars IH]; cbn; [tauto |].
  destruct (is_NUL c) eqn:E; cbn; [tauto |].
  intros [-> | Hin]; [| tauto].
  unfold is_NUL in E; now rewrite Ascii.eqb_refl in E.
Qed.

Section CollisionProperties.

Variable LLUUID : Type.
Variable time_t : Type.
Variable DB_FIRST_NAME_BUF_SIZE : nat.
Variable DB_LAST_NAME_BUF_SIZE : nat.

Let copy := copy_LLMeanCollisionData LLUUID time_t DB_FIRST_NAME_BUF_SIZE DB_LAST_NAME_BUF_SIZE.

Lemma copy_names (mcd : LLMeanCollisionData LLUUID time_t) :
  c_str (mFirstName _ _ (copy mcd)) =
    firstn (DB_FIRST_NAME_BUF_SIZE - 1) (c_str (mFirstName _ _ mcd)) /\
  c_str (mLastName _ _ (copy mcd)) =
    firstn (DB_LAST_NAME_BUF_SIZE - 1) (c_str (mLastName _ _ mcd)).
Proof. split; apply c_str_strncpy. Qed.

End CollisionProperties.

(** X13: the copy constructor fills both name arrays completely and ends
    each with a NUL, whatever the source holds: for buffers of positive size
    the copied arrays have the buffer's length, their C strings are the
    source's C strings cut to one character less than the buffer, and the
    other five fields are copied as they are. *)
Theorem copy_names_terminated
    (LLUUID time_t : Type) (DB_FIRST_NAME_BUF_SIZE DB_LAST_NAME_BUF_SIZE : nat)
    (mcd : LLMeanCollisionData LLUUID time_t) :
  (0 < DB_FIRST_NAME_BUF_SIZE)%nat -> (0 < DB_LAST_NAME_BUF_SIZE)%nat ->
  let c := copy_LLMeanCollisionData LLUUID time_t
             DB_FIRST_NAME_BUF_SIZE DB_LAST_NAME_BUF_SIZE mcd in
  length (mFirstName _ _ c) = DB_FIRST_NAME_BUF_SIZE /\
  length (mLastName _ _ c) = DB_LAST_NAME_BUF_SIZE /\
  last (mFirstName _ _ c) NUL = NUL /\
  last (mLastName _ _ c) NUL = NUL /\
  c_str (mFirstName _ _ c) =
    firstn (DB_FIRST_NAME_BUF_SIZE - 1) (c_str (mFirstName _ _ mcd)) /\
  c_str (mLastName _ _ c) =
    firstn (DB_LAST_NAME_BUF_SIZE - 1) (c_str (mLastName _ _ mcd)) /\
  (length (c_str (mFirstName _ _ c)) < DB_FIRST_NAME_BUF_SIZE)%nat /\
  (length (c_str (mLastName _ _ c)) < DB_LAST_NAME_BUF_SIZE)%nat /\
  mVictim _ _ c = mVictim _ _ mcd /\ mPerp _ _ c = mPerp _ _ mcd /\
  mTime _ _ c = mTime _ _ mcd /\ mType _ _ c = mType _ _ mcd /\
  mMag _ _ c = mMag _ _ mcd.
Proof.
  intros Hf Hl c.
  destruct (copy_names LLUUID time_t DB_FIRST_NAME_BUF_SIZE DB_LAST_NAME_BUF_SIZE mcd)
    as [E1 E2].
  fold c in E1, E2.
  assert (L1 : length (mFirstName _ _ c) = DB_FIRST_NAME_BUF_SIZE)
    by (cbn; rewrite length_app, strncpy_length; cbn; lia).
  assert (L2 : length (mLastName _ _ c) = DB_LAST_NAME_BUF_SIZE)
    by (cbn; rewrite length_app, strncpy_length; cbn; lia).
  repeat split; try assumption; try reflexivity.
  - cbn; apply last_last.
  - cbn; apply last_last.
  - rewrite E1, length_firstn; lia.
  - rewrite E2, length_firstn; lia.
Qed.

Lemma copy_names_terminated_witness :
  let name := ["A"; "n"; "n"; "a"; NUL; "x"; "y"; "z"]%char in
  let mcd := mk_collision nat nat 1%nat 2%nat 3%nat MEAN_BUMP f32_1 name name in
  let c := copy_LLMeanCollisionData nat nat 8 4 mcd in
  ((0 < 8)%nat /\ (0 < 4)%nat) /\
  c_str (mFirstName _ _ c) = ["A"; "n"; "n"; "a"]%char /\
  c_str (mLastName _ _ c) = ["A"; "n"; "n"]%char.
Proof.
  intros name mcd c.
  split; [split; lia |].
  destruct (copy_names_terminated nat nat 8 4 mcd ltac:(lia) ltac:(lia))
    as (_ & _ & _ & _ & E1 & E2 & _).
  split; [exact E1 | exact E2].
Defined.

(** X14: copying keeps a name that fits: when the source array holds a NUL
    and is no longer than the buffer, the copy's C string is the source's. *)
Theorem copy_keeps_fitting_names
    (LLUUID time_t : Type) (DB_FIRST_NAME_BUF_SIZE DB_LAST_NAME_BUF_SIZE : nat)
    (mcd : LLMeanCollisionData LLUUID time_t) :
  In NUL (mFirstName _ _ mcd) -> In NUL (mLastName _ _ mcd) ->
  (length (mFirstName _ _ mcd) <= DB_FIRST_NAME_BUF_SIZE)%nat ->
  (length (mLastName _ _ mcd) <= DB_LAST_NAME_BUF_SIZE)%nat ->
  let c := copy_LLMeanCollisionData LLUUID time_t
             DB_FIRST_NAME_BUF_SIZE DB_LAST_NAME_BUF_SIZE mcd in
  c_str (mFirstName _ _ c) = c_str (mFirstName _ _ mcd) /\
  c_str (mLastName _ _ c) = c_str (mLastName _ _ mcd).
Proof.
  intros N1 N2 L1 L2 c.
  destruct (copy_names LLUUID time_t DB_FIRST_NAME_BUF_SIZE DB_LAST_NAME_BUF_SIZE mcd)
    as [E1 E2].
  pose proof (c_str_length _ N1); pose proof (c_str_length _ N2).
  subst c; rewrite E1, E2; split; apply firstn_all2; lia.
Qed.

Lemma copy_keeps_fitting_names_witness :
  let name := ["A"; "n"; "n"; "a"; NUL; "x"; "y"; "z"]%char in
  let mcd := mk_collision nat nat 1%nat 2%nat 3%nat MEAN_BUMP f32_1 name name in
  let c := copy_LLMeanCollisionData nat nat 8 8 mcd in
  (In NUL (mFirstName _ _ mcd) /\ In NUL (mLastName _ _ mcd) /\
   (length (mFirstName _ _ mcd) <= 8)%nat /\ (length (mLastName _ _ mcd) <= 8)%nat) /\
  (c_str (mFirstName _ _ c) = c_str (mFirstName _ _ mcd) /\
   c_str (mLastName _ _ c) = c_str (mLastName _ _ mcd)).
Proof.
  intros name mcd c.
  assert (N : In NUL name) by (cbn; tauto).
  assert (L : (length name <= 8)%nat) by (cbn; lia).
  split; [repeat split; assumption |].
  exact (copy_keeps_fitting_names nat nat 8 8 mcd N N L L).
Defined.

(** X15: a record from the first constructor has empty names whatever the
    arrays held before, and so has every copy of it. *)
Theorem new_collision_names_empty
    (LLUUID time_t : Type) (DB_FIRST_NAME_BUF_SIZE DB_LAST_NAME_BUF_SIZE : nat)
    (victim perp : LLUUID) (time : time_t) (type : EMeanCollisionType) (mag : F32)
    (first_name_memory last_name_memory : list ascii) :
  let a := new_LLMeanCollisionData LLUUID time_t victim perp time type mag
             first_name_memory last_name_memory in
  let c := copy_LLMeanCollisionData LLUUID time_t
             DB_FIRST_NAME_BUF_SIZE DB_LAST_NAME_BUF_SIZE a in
  c_str (mFirstName _ _ a) = [] /\ c_str (mLastName _ _ a) = [] /\
  c_str (mFirstName _ _ c) = [] /\ c_str (mLastName _ _ c) = [] /\
  mType _ _ c = type /\ mMag _ _ c = mag.
Proof.
  intros a c.
  destruct (copy_names LLUUID time_t DB_FIRST_NAME_BUF_SIZE DB_LAST_NAME_BUF_SIZE a)
    as [E1 E2].
  fold c in E1, E2; rewrite E1, E2; cbn.
  rewrite !firstn_nil; repeat split; reflexivity.
Qed.

(** ** What operator<< prints *)

Lemma append_cancel_l (s a b : string) : (s ++ a)%string = (s ++ b)%string -> a = b.
Proof.
  induction s as [| c s IH]; cbn; intros H; [exact H |].
  injection H as H; auto.
Qed.

Lemma String_inj (c : ascii) (s1 s2 : string) : String c s1 = String c s2 -> s1 = s2.
Proof. intros H; injection H as H; exact H. Qed.

Ltac peel_strings H :=
  repeat first [apply String_inj in H | apply append_cancel_l in H].

(** X16: [operator<<] prints nothing exactly for the types [MEAN_INVALID]
    and [MEAN_EOF], and what it prints tells the type: two records of the same
    perpetrator and victim that print the same non-empty text have the same
    type, whatever the stream prints for identifiers, floats and times. *)
Theorem print_collision_tells_type
    (LLUUID time_t : Type) (print_uuid : LLUUID -> string) (print_F32 : F32 -> string)
    (ctime : time_t -> string) (a b : LLMeanCollisionData LLUUID time_t) :
  let print := print_collision LLUUID time_t print_uuid print_F32 ctime in
  (print a = EmptyString <-> mType _ _ a = MEAN_INVALID \/ mType _ _ a = MEAN_EOF) /\
  (mPerp _ _ a = mPerp _ _ b -> mVictim _ _ a = mVictim _ _ b ->
   print a = print b -> print a <> EmptyString -> mType _ _ a = mType _ _ b).
Proof.
  cbv zeta; unfold print_collision; split.
  - destruct (mType _ _ a); cbn; split; intros H;
      try discriminate; try tauto; destruct H; discriminate.
  - intros -> ->.
    destruct (mType _ _ a), (mType _ _ b); cbn; intros H Hne;
      try reflexivity; try discriminate; try (exfalso; apply Hne; reflexivity);
      exfalso; peel_strings H; discriminate.
Qed.

Lemma print_collision_tells_type_witness :
  let a := mk_collision nat nat 1%nat 2%nat 3%nat MEAN_SCRIPTED_OBJECT_COLLIDE f32_1 [] [] in
  let b := mk_collision nat nat 1%nat 2%nat 4%nat MEAN_PHYSICAL_OBJECT_COLLIDE f32_1 [] [] in
  let print :=
    print_collision nat nat (fun _ => "id"%string) (fun _ => "1"%string)
      (fun _ => "now"%string) in
  (mPerp _ _ a = mPerp _ _ b /\ mVictim _ _ a = mVictim _ _ b) /\
  (print a = print b -> print a <> EmptyString -> mType _ _ a = mType _ _ b).
Proof.
  intros a b print.
  split; [split; reflexivity |].
  exact (proj2 (print_collision_tells_type nat nat (fun _ => "id"%string)
                  (fun _ => "1"%string) (fun _ => "now"%string) a b)
           eq_refl eq_refl).
Defined.

(** ** calc_auto_scale_range: where the bounds come from *)

Lemma nth_In_or_default {A : Type} (l : list A) (i : nat) (d : A) :
  In (nth i l d) l \/ nth i l d = d.
Proof.
  destruct (Nat.lt_ge_cases i (length l)) as [H | H].
  - left; now apply nth_In.
  - right; now apply nth_overflow.
Qed.

Section AutoScaleProgression.

(** The four variables of the scan stay within the progression. *)
Let from_progression (lo hi smin smax : F32) (st : scan_state) : Prop :=
  In (out_min st) (lo :: map (fun x => (smin * x)%f32) RANGES) /\
  In (out_max st) (hi :: map (fun x => (smax * x)%f32) RANGES) /\
  In (cur_tick_min st) TICKS /\ In (cur_tick_max st) TICKS.

Lemma nth_RANGES (smin : F32) (i : nat) :
  In (smin * nth i RANGES f32_0)%f32 (map (fun x => (smin * x)%f32) RANGES).
Proof.
  apply in_map; destruct (nth_In_or_default RANGES i f32_0) as [H | ->];
    [exact H | cbn; tauto].
Qed.

Lemma nth_TICKS (i : nat) : In (nth i TICKS f32_0) TICKS.
Proof.
  destruct (nth_In_or_default TICKS i f32_0) as [H | ->]; [exact H | cbn; tauto].
Qed.

Lemma ascending_step_progression (min max lo hi smin smax : F32) (st : scan_state) (i : nat) :
  from_progression lo hi smin smax st ->
  from_progression lo hi smin smax (ascending_step min max smin smax st i).
Proof.
  unfold from_progression, ascending_step; intros (H1 & H2 & H3 & H4).
  pose proof (nth_RANGES smin i); pose proof (nth_RANGES smax i); pose proof (nth_TICKS i).
  destruct (_ && _); destruct (_ && _); cbn [out_min out_max cur_tick_min cur_tick_max];
    repeat split; try assumption; right; assumption.
Qed.

Lemma descending_step_progression (min max lo hi smin smax : F32) (st : scan_state) (i : nat) :
  from_progression lo hi smin smax st ->
  from_progression lo hi smin smax (descending_step min max smin smax st i).
Proof.
  unfold from_progression, descending_step; intros (H1 & H2 & H3 & H4).
  pose proof (nth_RANGES smin i); pose proof (nth_RANGES smax i); pose proof (nth_TICKS i).
  destruct (_ && _); destruct (_ && _); cbn [out_min out_max cur_tick_min cur_tick_max];
    repeat split; try assumption; right; assumption.
Qed.

Lemma loops_progression (su : scale_setup) :
  from_progression (clamped_min su) (clamped_max su) (starting_min su) (starting_max su)
    (second_loop su (first_loop su (mk_scan (clamped_min su) (clamped_max su) f32_0 f32_0))).
Proof.
  unfold second_loop, first_loop.
  apply fold_left_invariant; [intros; now apply descending_step_progression |].
  apply fold_left_invariant; [intros; now apply ascending_step_progression |].
  unfold from_progression; cbn; tauto.
Qed.

End AutoScaleProgression.

(** X17: the range that [calc_auto_scale_range] returns is made of the
    clamped input and the progression: each bound is the clamped bound or the
    starting bound times one of [RANGES], and the tick is the power of ten
    times the larger of two entries of [TICKS].  This holds for every input,
    NaN included. *)
Theorem auto_scale_from_progression
    (is_approx_equal : F32 -> F32 -> bool) (llceil_log10 : F32 -> S32)
    (pow10 : S32 -> F64) (min max : F32) :
  let su := auto_scale_setup is_approx_equal llceil_log10 pow10 min max in
  let r := calc_auto_scale_range is_approx_equal llceil_log10 pow10 min max in
  In (range_min r) (clamped_min su :: map (fun x => (starting_min su * x)%f32) RANGES) /\
  In (range_max r) (clamped_max su :: map (fun x => (starting_max su * x)%f32) RANGES) /\
  (exists tick_min tick_max,
     In tick_min TICKS /\ In tick_max TICKS /\
     range_tick r = (power_of_10 su * llmax tick_min tick_max)%f32).
Proof.
  intros su r.
  destruct (loops_progression su) as (H1 & H2 & H3 & H4).
  repeat split; [exact H1 | exact H2 |].
  eexists _, _; repeat split; [exact H3 | exact H4].
Qed.

(** ** calc_auto_scale_range: the first entry that fits *)

Lemma descending_suffix (l1 l2 : list nat) (i : nat) :
  descending_indices = l1 ++ i :: l2 ->
  (i < length RANGES)%nat /\ (forall j, In j l2 <-> (j < i)%nat).
Proof.
  unfold descending_indices; cbn; intros H.
  do 7 (destruct l1 as [| ? l1];
        [injection H as <- <-; split; [lia | intros j; cbn; lia] |
         injection H as _ H]).
  destruct l1; discriminate.
Qed.

Section FirstFit.

Variables min max starting_min starting_max : F32.

Let step := descending_step min max starting_min starting_max.
Let lo_fits (i : nat) : bool :=
  (min <? f32_0)%f32 && (starting_min * nth i RANGES f32_0 <=? min)%f32.
Let hi_fits (i : nat) : bool :=
  (max >? f32_0)%f32 && (starting_max * nth i RANGES f32_0 >=? max)%f32.

Lemma descending_step_fields (st : scan_state) (i : nat) :
  out_min (step st i) =
    (if lo_fits i then (starting_min * nth i RANGES f32_0)%f32 else out_min st) /\
  cur_tick_min (step st i) = (if lo_fits i then nth i TICKS f32_0 else cur_tick_min st) /\
  out_max (step st i) =
    (if hi_fits i then (starting_max * nth i RANGES f32_0)%f32 else out_max st) /\
  cur_tick_max (step st i) = (if hi_fits i then nth i TICKS f32_0 else cur_tick_max st).
Proof.
  unfold step, descending_step, lo_fits, hi_fits.
  destruct (_ && _); destruct (_ && _); repeat split; reflexivity.
Qed.

(** A scan of the indices [l]: each side ends on the last index of [l] that
    fits, or where it started. *)
Lemma scan_last_hit (l : list nat) (st : scan_state) :
  let st' := fold_left step l st in
  (((forall j, In j l -> lo_fits j = false) /\
    out_min st' = out_min st /\ cur_tick_min st' = cur_tick_min st)
   \/
   (exists l1 i l2,
      l = l1 ++ i :: l2 /\ lo_fits i = true /\ (forall j, In j l2 -> lo_fits j = false) /\
      out_min st' = (starting_min * nth i RANGES f32_0)%f32 /\
      cur_tick_min st' = nth i TICKS f32_0))
  /\
  (((forall j, In j l -> hi_fits j = false) /\
    out_max st' = out_max st /\ cur_tick_max st' = cur_tick_max st)
   \/
   (exists l1 i l2,
      l = l1 ++ i :: l2 /\ hi_fits i = true /\ (forall j, In j l2 -> hi_fits j = false) /\
      out_max st' = (starting_max * nth i RANGES f32_0)%f32 /\
      cur_tick_max st' = nth i TICKS f32_0)).
Proof.
  revert st; induction l as [| a l IH]; intros st; cbn [fold_left].
  - split; left; repeat split; auto; intros j [].
  - destruct (descending_step_fields st a) as (F1 & F2 & F3 & F4).
    destruct (IH (step st a)) as [Hlo Hhi]; cbv zeta in *.
    split.
    + destruct Hlo as [(Hnone & E1 & E2) | (l1 & i & l2 & -> & Hi & Hl2 & E1 & E2)].
      * destruct (lo_fits a) eqn:Ea.
        -- right; exists [], a, l; repeat split; auto; congruence.
        -- left; repeat split; try congruence.
           intros j [<- | Hj]; auto.
      * right; exists (a :: l1), i, l2; repeat split; auto.
    + destruct Hhi as [(Hnone & E1 & E2) | (l1 & i & l2 & -> & Hi & Hl2 & E1 & E2)].
      * destruct (hi_fits a) eqn:Ea.
        -- right; exists [], a, l; repeat split; auto; congruence.
        -- left; repeat split; try congruence.
           intros j [<- | Hj]; auto.
      * right; exists (a :: l1), i, l2; repeat split; auto.
Qed.

(** The descending scan: each side ends on the first entry that fits. *)
Lemma descending_scan_first_fit (lo hi : F32) :
  let st' := fold_left step descending_indices (mk_scan lo hi f32_0 f32_0) in
  first_fit lo_fits lo (fun i => (starting_min * nth i RANGES f32_0)%f32)
    (out_min st') (cur_tick_min st') /\
  first_fit hi_fits hi (fun i => (starting_max * nth i RANGES f32_0)%f32)
    (out_max st') (cur_tick_max st').
Proof.
  assert (Hall : forall j, (j < length RANGES)%nat -> In j descending_indices).
  { intros j Hj; unfold descending_indices; rewrite <- in_rev; apply in_seq; lia. }
  destruct (scan_last_hit descending_indices (mk_scan lo hi f32_0 f32_0)) as [Hlo Hhi].
  cbv zeta in *; split.
  - destruct Hlo as [(Hnone & E1 & E2) | (l1 & i & l2 & Hl & Hi & Hl2 & E1 & E2)].
    + left; repeat split; auto.
    + right; destruct (descending_suffix _ _ _ Hl) as [Hlt Hin].
      exists i; repeat split; auto.
      intros j Hj; apply Hl2, Hin, Hj.
  - destruct Hhi as [(Hnone & E1 & E2) | (l1 & i & l2 & Hl & Hi & Hl2 & E1 & E2)].
    + left; repeat split; auto.
    + right; destruct (descending_suffix _ _ _ Hl) as [Hlt Hin].
      exists i; repeat split; auto.
      intros j Hj; apply Hl2, Hin, Hj.
Qed.

End FirstFit.

(** X18: [calc_auto_scale_range] snaps each bound outward to the first entry
    of the progression that reaches it.  For input bounds that are numbers,
    the lower bound returned is [starting_min * RANGES[i]] for the least [i]
    with the clamped minimum negative and that product at most it, and the
    clamped minimum when there is no such [i]; likewise for the upper bound;
    and the tick is the power of ten times the larger of the [TICKS] entries
    of the two indices (zero for a side without one). *)
Theorem auto_scale_first_fit
    (is_approx_equal : F32 -> F32 -> bool) (llceil_log10 : F32 -> S32)
    (pow10 : S32 -> F64) (min max : F32) :
  not_nan min -> not_nan max ->
  let su := auto_scale_setup is_approx_equal llceil_log10 pow10 min max in
  let r := calc_auto_scale_range is_approx_equal llceil_log10 pow10 min max in
  let lo_fits (i : nat) :=
    (clamped_min su <? f32_0)%f32
    && (starting_min su * nth i RANGES f32_0 <=? clamped_min su)%f32 in
  let hi_fits (i : nat) :=
    (clamped_max su >? f32_0)%f32
    && (starting_max su * nth i RANGES f32_0 >=? clamped_max su)%f32 in
  exists tick_min tick_max,
    first_fit lo_fits (clamped_min su)
      (fun i => (starting_min su * nth i RANGES f32_0)%f32) (range_min r) tick_min /\
    first_fit hi_fits (clamped_max su)
      (fun i => (starting_max su * nth i RANGES f32_0)%f32) (range_max r) tick_max /\
    range_tick r = (power_of_10 su * llmax tick_min tick_max)%f32.
Proof.
  intros Hmin Hmax su r lo_fits hi_fits.
  subst r; unfold calc_auto_scale_range; fold su.
  rewrite (first_loop_idle is_approx_equal llceil_log10 pow10 min max _ Hmin Hmax).
  unfold second_loop, scan_result, range_min, range_max, range_tick; cbn [fst snd].
  destruct (descending_scan_first_fit (clamped_min su) (clamped_max su)
              (starting_min su) (starting_max su) (clamped_min su) (clamped_max su))
    as [Hlo Hhi].
  eexists _, _; split; [exact Hlo | split; [exact Hhi | reflexivity]].
Qed.

Lemma auto_scale_first_fit_witness :
  let min := F32ops.of_Z (-3) in
  let max := F32ops.of_Z 42 in
  let r := calc_auto_scale_range ref_is_approx_equal ref_llceil_log10 ref_pow10 min max in
  (not_nan min /\ not_nan max) /\
  range_min r = F32ops.of_Z (-10) /\ range_max r = F32ops.of_Z 50 /\
  range_tick r = F32ops.of_Z 10 /\
  (exists tick_min tick_max,
     range_tick r =
       (power_of_10 (auto_scale_setup ref_is_approx_equal ref_llceil_log10 ref_pow10 min max)
        * llmax tick_min tick_max)%f32).
Proof.
  intros min max r.
  split; [split; reflexivity |].
  split; [vm_compute; reflexivity |].
  split; [vm_compute; reflexivity |].
  split; [vm_compute; reflexivity |].
  destruct (auto_scale_first_fit ref_is_approx_equal ref_llceil_log10 ref_pow10
              min max eq_refl eq_refl) as (tick_min & tick_max & _ & _ & E).
  exists tick_min, tick_max; exact E.
Defined.

(** ** calc_tick_value: the digit count of a divisor *)

(** X19: the inner loop of [calc_tick_value] finds the least digit count.  It
    breaks at [k] exactly when [k] is the least digit count from its start up
    to 5 at which the candidate tick rounds cleanly, and it runs to the end
    exactly when there is none. *)
Theorem first_clean_is_least
    (is_approx_equal : F32 -> F32 -> bool) (llceil_log10 : F32 -> S32)
    (pow10 : S32 -> F64) (min range : F32) (divisor : S32) :
  let possible_tick_value := (range / F32ops.of_Z divisor)%f32 in
  let start :=
    S32_wrap (- S32_wrap (llceil_log10 (min + possible_tick_value)%f32 - 1)) in
  let clean (j : S32) :=
    rounds_cleanly is_approx_equal (test_tick_value pow10 min possible_tick_value j) in
  let found := first_clean_digit_count is_approx_equal llceil_log10 pow10 min range divisor in
  (forall k, found = Some k <->
             start <= k < 6 /\ clean k = true /\
             (forall j, start <= j < k -> clean j = false)) /\
  (found = None <-> (forall j, start <= j < 6 -> clean j = false)).
Proof.
  intros ptv start clean found.
  assert (Hsome : forall k, found = Some k ->
            start <= k < 6 /\ clean k = true /\
            (forall j, start <= j < k -> clean j = false)).
  { intros k H; unfold found, first_clean_digit_count in H.
    apply digit_scan_some in H; destruct H as (Hr & Hk & Hb).
    change (start <= k < start + Z.of_nat (Z.to_nat (6 - start))) in Hr.
    change (clean k = true) in Hk.
    change (forall j, start <= j < k -> clean j = false) in Hb.
    repeat split; auto; lia. }
  assert (Hnone : found = None -> forall j, start <= j < 6 -> clean j = false).
  { intros H j Hj; unfold found, first_clean_digit_count in H.
    pose proof (digit_scan_none _ _ _ _ _ _ H) as Hb.
    change (forall j, start <= j < start + Z.of_nat (Z.to_nat (6 - start)) ->
                      clean j = false) in Hb.
    apply Hb; lia. }
  split; [intros k; split; [apply Hsome |] | split; [apply Hnone |]].
  - intros (Hr & Hk & Hb).
    destruct found as [k' |] eqn:E.
    + destruct (Hsome k' eq_refl) as (Hr' & Hk' & Hb').
      f_equal; destruct (Z.lt_trichotomy k k') as [Hlt | [-> | Hgt]]; [| reflexivity |].
      * rewrite (Hb' k) in Hk by lia; discriminate.
      * rewrite (Hb k') in Hk' by lia; discriminate.
    + rewrite (Hnone eq_refl k) in Hk by lia; discriminate.
  - intros Hall; destruct found as [k' |] eqn:E; [| reflexivity].
    destruct (Hsome k' eq_refl) as (Hr' & Hk' & _).
    rewrite (Hall k') in Hk' by lia; discriminate.
Qed.

(** ** Facts on rounding: what does not round to zero *)

Section RoundingMagnitude.

Variables prec emax : Z.
Hypothesis prec_pos : 0 < prec.

Lemma shr_1_div2 (mrs : shr_record) :
  0 <= shr_m mrs -> shr_m (shr_1 mrs) = Z.div2 (shr_m mrs).
Proof.
  destruct mrs as [m r s]; cbn.
  destruct m as [| [p | p |] | p]; cbn; intros H; try reflexivity; lia.
Qed.

Lemma iter_shr_1 (p : positive) (mrs : shr_record) :
  0 <= shr_m mrs -> shr_m (iter_pos shr_1 p mrs) = Pos.iter Z.div2 (shr_m mrs) p.
Proof.
  revert mrs; induction p as [p IH | p IH |]; intros mrs H; cbn [iter_pos Pos.iter].
  - rewrite IH by (apply iter_pos_invariant; auto using shr_1_nonneg).
    rewrite IH by (now apply shr_1_nonneg).
    rewrite shr_1_div2 by exact H.
    now rewrite !Pos.iter_swap.
  - rewrite IH by (apply iter_pos_invariant; auto using shr_1_nonneg).
    now rewrite IH.
  - now apply shr_1_div2.
Qed.

Lemma iter_shr_1_div (p : positive) (mrs : shr_record) :
  0 <= shr_m mrs -> shr_m (iter_pos shr_1 p mrs) = shr_m mrs / 2 ^ Zpos p.
Proof.
  intros H; rewrite iter_shr_1 by exact H.
  rewrite <- Z.shiftr_div_pow2 by lia; reflexivity.
Qed.

Lemma Zdigits2_bounds (m : Z) :
  0 < m -> 2 ^ (Zdigits2 m - 1) <= m < 2 ^ Zdigits2 m.
Proof.
  destruct m as [| p | p]; try lia; intros _; apply digits2_pos_bounds.
Qed.

(** A positive mantissa at an exponent of at least [emin] stays positive when
    it is shifted to its canonical exponent: a shift happens only when it has
    more than [prec] digits, and leaves [prec] of them. *)
Lemma shr_fexp_pos (m e : Z) (l : location) :
  0 < m -> emin prec emax <= e ->
  0 < shr_m (fst (shr_fexp prec emax m e l)) /\
  emin prec emax <= snd (shr_fexp prec emax m e l).
Proof.
  intros Hm He; unfold shr_fexp, shr.
  pose proof (Zdigits2_bounds m Hm) as Hd.
  set (d := Zdigits2 m) in *.
  destruct (fexp prec emax (d + e) - e) as [| p | p] eqn:En; cbn [fst snd];
    try (rewrite shr_record_of_loc_m; split; lia).
  unfold fexp in En.
  assert (Ep : Zpos p = d - prec) by lia.
  rewrite iter_shr_1_div by (rewrite shr_record_of_loc_m; lia).
  rewrite shr_record_of_loc_m; split; [| lia].
  apply Z.lt_le_trans with (2 ^ (prec - 1)); [apply Z.pow_pos_nonneg; lia |].
  apply Z.div_le_lower_bound; [apply Z.pow_pos_nonneg; lia |].
  rewrite <- Z.pow_add_r by lia.
  replace (Zpos p + (prec - 1)) with (d - 1) by lia; lia.
Qed.

Lemma binary_round_aux_positive (m e : Z) (l : location) :
  0 < m -> emin prec emax <= e ->
  positive_float (binary_round_aux prec emax false m e l).
Proof.
  intros Hm He; unfold binary_round_aux.
  destruct (shr_fexp_pos m e l Hm He) as [H1 H1e].
  destruct (shr_fexp prec emax m e l) as [mrs' e']; cbn [fst snd] in H1, H1e.
  pose proof (round_nearest_even_ge (shr_m mrs') (loc_of_shr_record mrs')) as H2.
  set (m1 := round_nearest_even _ _) in *.
  assert (Hm1 : 0 < m1) by lia.
  destruct (shr_fexp_pos m1 e' loc_Exact Hm1 H1e) as [H3 _].
  destruct (shr_fexp prec emax m1 e' loc_Exact) as [mrs'' e'']; cbn [fst] in H3.
  destruct (shr_m mrs'') as [| p | p]; try lia.
  destruct (e'' <=? emax - prec); exact I.
Qed.

End RoundingMagnitude.

Lemma positive_float_ltb (x : F32) : positive_float x -> F32ops.ltb f32_0 x = true.
Proof. float_cases x; cbn; intros H; tauto || reflexivity. Qed.

(** A positive number of at least ten units of the smallest subnormal,
    divided by one of the divisors, is positive. *)
Lemma div_by_divisor_positive (m : positive) (e : Z) (d : S32) :
  In d DIVISORS -> -149 <= e -> 10 <= Zpos m * 2 ^ (e + 149) ->
  positive_float (S754_finite false m e / F32ops.of_Z d)%f32.
Proof.
  intros Hd He Hmag.
  assert (Hdiv : exists md ed,
            F32ops.of_Z d = S754_finite false md ed /\
            -21 <= ed <= -20 /\ Zpos md <= 10 * 2 ^ (- ed) /\ Zpos (digits2_pos md) = 24).
  { cbn in Hd.
    repeat (destruct Hd as [<- | Hd];
            [eexists _, _; split; [vm_compute; reflexivity |];
             split; [lia | split; [vm_compute; discriminate | reflexivity]] |]).
    destruct Hd. }
  destruct Hdiv as (md & ed & -> & Hed & Hmd & Hdig).
  unfold F32ops.div, SFdiv, SFdiv_core_binary.
  cbn [Zdigits2 xorb]; rewrite Hdig.
  pose proof (digits2_pos_bounds m) as Bm.
  pose proof (digits2_pos_bounds md) as Bmd; rewrite Hdig in Bmd.
  set (d1 := Zpos (digits2_pos m)) in *.
  assert (Hd1 : 0 < d1) by (subst d1; lia).
  set (e' := Z.min _ _).
  assert (He' : emin F32ops.prec F32ops.emax <= e').
  { subst e'; unfold fexp, emin, F32ops.prec, F32ops.emax; lia. }
  set (m' := match e - ed - e' with Z0 => _ | Zpos _ => _ | Zneg _ => _ end).
  assert (Hm' : Zpos md <= m').
  { assert (P24 : 2 ^ 24 = 16777216) by reflexivity.
    subst m' e'; unfold fexp, emin, F32ops.prec, F32ops.emax.
    change (3 - 128 - 24) with (-149).
    destruct (Z.le_gt_cases (-149) (d1 + e - (24 + ed) - 24)) as [Hn | Hs].
    - (* the quotient is normal *)
      rewrite Z.max_l by lia.
      destruct (Z.le_gt_cases (d1 + e - (24 + ed) - 24) (e - ed)) as [Hle | Hgt].
      + rewrite Z.min_l by lia.
        replace (e - ed - (d1 + e - (24 + ed) - 24)) with (48 - d1) by lia.
        destruct (48 - d1) as [| s | s] eqn:Es; try lia.
        * assert (d1 = 48) by lia.
          assert (2 ^ (48 - 1) <= Zpos m) by (replace 48 with d1 by lia; lia).
          change (2 ^ (48 - 1)) with 140737488355328 in *; lia.
        * rewrite Z.shiftl_mul_pow2 by lia.
          assert (2 ^ 47 <= Zpos m * 2 ^ Zpos s).
          { replace 47 with ((d1 - 1) + Zpos s) by lia.
            rewrite Z.pow_add_r by lia.
            apply Z.mul_le_mono_nonneg_r; [apply Z.pow_nonneg; lia | lia]. }
          change (2 ^ 47) with 140737488355328 in *; lia.
      + rewrite Z.min_r by lia; rewrite Z.sub_diag.
        assert (2 ^ 48 <= 2 ^ (d1 - 1)) by (apply Z.pow_le_mono_r; lia).
        change (2 ^ 48) with 281474976710656 in *; lia.
    - (* the quotient is subnormal *)
      rewrite Z.max_r by lia.
      rewrite Z.min_l by lia.
      replace (e - ed - -149) with ((e + 149) + - ed) by lia.
      destruct (e + 149 + - ed) as [| s | s] eqn:Es; try lia.
      rewrite <- Es, Z.shiftl_mul_pow2, Z.pow_add_r by lia.
      assert (0 < 2 ^ (- ed)) by (apply Z.pow_pos_nonneg; lia).
      nia. }
  assert (Hq : 0 < m' / Zpos md).
  { apply Z.div_str_pos; lia. }
  unfold Z.div in Hq.
  destruct (Z.div_eucl m' (Zpos md)) as [q r]; cbn [fst] in Hq.
  apply binary_round_aux_positive; [reflexivity | exact Hq | exact He'].
Qed.

(** X20: [calc_tick_value] returns a strictly positive interval whenever the
    range [max - min] is a positive number of at least ten units of the
    smallest subnormal, [10 * 2^-149], that does not count as approximately
    zero.  Every positive normal range is that large.  This holds whatever
    [is_approx_equal], [logf] and [pow] compute. *)
Theorem tick_value_positive
    (is_approx_equal : F32 -> F32 -> bool) (llceil_log10 : F32 -> S32)
    (pow10 : S32 -> F64) (min max : F32) (m : positive) (e : Z) :
  (max - min)%f32 = S754_finite false m e ->
  -149 <= e -> 10 <= Zpos m * 2 ^ (e + 149) ->
  is_approx_equal (max - min)%f32 f32_0 = false ->
  F32ops.ltb f32_0 (calc_tick_value is_approx_equal llceil_log10 pow10 min max) = true.
Proof.
  intros Hrange He Hmag Hne.
  unfold calc_tick_value; rewrite Hne, Hrange.
  apply positive_float_ltb, div_by_divisor_positive; try assumption.
  rewrite <- Hrange; apply chosen_divisor_in_DIVISORS.
Qed.

Lemma tick_value_positive_witness :
  let min := f32_0 in
  let max := f32_100 in
  ((max - min)%f32 = S754_finite false 13107200 (-17) /\
   -149 <= -17 /\ 10 <= Zpos 13107200 * 2 ^ (-17 + 149) /\
   ref_is_approx_equal (max - min)%f32 f32_0 = false) /\
  F32ops.ltb f32_0 (calc_tick_value ref_is_approx_equal ref_llceil_log10 ref_pow10 min max)
    = true.
Proof.
  intros min max.
  assert (H1 : (max - min)%f32 = S754_finite false 13107200 (-17)) by reflexivity.
  assert (H2 : -149 <= -17) by lia.
  assert (H3 : 10 <= Zpos 13107200 * 2 ^ (-17 + 149)) by (vm_compute; discriminate).
  assert (H4 : ref_is_approx_equal (max - min)%f32 f32_0 = false) by reflexivity.
  split; [repeat split; assumption |].
  exact (tick_value_positive ref_is_approx_equal ref_llceil_log10 ref_pow10
           min max 13107200 (-17) H1 H2 H3 H4).
Defined.

(** ** The value a sample statistic displays *)

Lemma few_changes_not_rapid (n : S32) :
  0 <= n <= 10 ->
  (F32ops.of_Z n / RAPID_CHANGE_WINDOW >? F32ops.of_Z MAX_RAPID_CHANGES_PER_SEC)%f32 = false.
Proof.
  intros H.
  assert (Hn : In n [0; 1; 2; 3; 4; 5; 6; 7; 8; 9; 10]) by (cbn; lia).
  cbn in Hn.
  repeat (destruct Hn as [<- | Hn]; [vm_compute; reflexivity |]).
  destruct Hn.
Qed.

(** X21: with at most twelve recorded periods a sample statistic always
    displays its current value: the loop of [calc_num_rapid_changes] visits
    at most ten recordings, so it cannot count more than
    [MAX_RAPID_CHANGES_PER_SEC] changes, and [draw] never switches to the
    mean. *)
Theorem sample_displays_current (frame_recording : PeriodicRecording) (current mean : F32) :
  S32_MIN <= getNumRecordedPeriods frame_recording <= 12 ->
  sample_display_value frame_recording current mean = current.
Proof.
  intros Hn; unfold sample_display_value.
  assert (Hr : S32_range (getNumRecordedPeriods frame_recording))
    by (unfold S32_range, S32_MAX; lia).
  unfold S32_range, S32_MIN, S32_MAX in Hr.
  set (n := getNumRecordedPeriods frame_recording) in *.
  pose proof (rapid_loop_bounds getLastValue frame_recording RAPID_CHANGE_WINDOW
                RAPID_CHANGE_THRESHOLD_local (Z.to_nat (n - 2)) 2
                (mk_rapid (getLastValue (getPrevRecording frame_recording 1))
                   f32_0 f32_0 0) eq_refl eq_refl) as Hb.
  cbn [num_rapid_changes] in Hb; cbv zeta in Hb; unfold S32_MAX in Hb.
  specialize (Hb ltac:(lia) ltac:(lia)).
  unfold calc_num_rapid_changes; fold n.
  rewrite few_changes_not_rapid by lia; reflexivity.
Qed.

Lemma sample_displays_current_witness :
  let recording (i : S32) :=
    mk_recording (F32ops.of_Z (i mod 2)) (F32ops.of_Z i) (F32ops.of_Z 1 / F32ops.of_Z 16)%f32 in
  let frame_recording := mk_periodic 12 recording in
  S32_MIN <= getNumRecordedPeriods frame_recording <= 12 /\
  sample_display_value frame_recording f32_3 f32_5 = f32_3.
Proof.
  intros recording frame_recording.
  assert (Hn : S32_MIN <= getNumRecordedPeriods frame_recording <= 12)
    by (unfold S32_MIN; cbn; lia).
  split; [exact Hn |].
  exact (sample_displays_current frame_recording f32_3 f32_5 Hn).
Defined.
